(** * physics-sims: the bundler and the development server

    A shallow embedding of [Solar-System/concat.py], [serve.py] and
    [serve_solar.py], followed by the properties established for them.

    Conventions of the embedding:
    - Python [str] values are [string]s (byte strings, UTF-8 as written in
      the sources); Python [int]s are [Z] or, for counters, [nat].
    - The file system is a finite map from path keys to nodes; the console
      is the list of lines printed so far.
    - A call that may raise returns a [result]; the state reached when the
      exception leaves the function is returned next to it. *)

From Stdlib Require Import Ascii ZArith Lia.
From stdpp Require Import base strings list gmap pretty.

Local Open Scope string_scope.
Local Open Scope list_scope.

(** ** Shared vocabulary *)

(** Python exceptions that the modelled code lets escape. *)
Inductive exn : Type :=
  | FileNotFoundError (path : string)
  | IsADirectoryError (path : string)
  | PermissionError (path : string)
  | UnicodeDecodeError (path : string)
  | OSError (what : string)
  | OverflowError
  | KeyboardInterrupt
  | LookupError (what : string)
  | UnicodeEncodeError (text : string)
  | gaierror (host : string).

Inductive result (A : Type) : Type :=
  | Ok (a : A)
  | Raise (e : exn).
Arguments Ok {A} a.
Arguments Raise {A} e.

(** The line feed and carriage return characters. *)
Definition LF : string := String "010"%char "".
Definition CR : string := String "013"%char "".
Definition CRLF : string := CR +:+ LF.

(** The concatenation of the pieces of a text, in order. *)
Definition joined (chunks : list string) : string :=
  foldr String.append "" chunks.

Module Concat.

(** *** Module constants of [concat.py] *)

(** The list literal bound to [FILES] on lines 13-26. *)
Definition FILES_literal : list string :=
  [ "C:\Users\Alif\Documents\GitHub\solar-system\index.html";
    "C:\Users\Alif\Documents\GitHub\solar-system\js\utils.js";
    "C:\Users\Alif\Documents\GitHub\solar-system\js\ui.js";
    "C:\Users\Alif\Documents\GitHub\solar-system\js\starfield.js";
    "C:\Users\Alif\Documents\GitHub\solar-system\js\sceneSetup.js";
    "C:\Users\Alif\Documents\GitHub\solar-system\js\main.js";
    "C:\Users\Alif\Documents\GitHub\solar-system\js\kepler.js";
    "C:\Users\Alif\Documents\GitHub\solar-system\js\controls.js";
    "C:\Users\Alif\Documents\GitHub\solar-system\js\celestialBodies.js";
    "C:\Users\Alif\Documents\GitHub\solar-system\js\constants.js";
    "C:\Users\Alif\Documents\GitHub\solar-system\js\animation.js";
    "C:\Users\Alif\Documents\GitHub\solar-system\solarsystem_data.json" ].

(** A Python [dict] keeps its keys in insertion order: an association list.
    [d[k] = v] replaces the value of a key already present, in place, and
    appends a new key at the end. *)
Fixpoint dict_setitem {V : Type} (k : string) (v : V) (d : list (string * V))
  : list (string * V) :=
  match d with
  | [] => [(k, v)]
  | (k', v') :: d' =>
      if decide (k = k') then (k, v) :: d' else (k', v') :: dict_setitem k v d'
  end.

(** [dict.fromkeys(iterable)]: every key is stored with the value [None]. *)
Definition dict_fromkeys (keys : list string) : list (string * unit) :=
  foldl (fun d k => dict_setitem k tt d) [] keys.

(** [list(d)]: the keys of the dictionary, in its order. *)
Definition dict_list {V : Type} (d : list (string * V)) : list string := d.*1.

(** Line 27: [FILES = list(dict.fromkeys(FILES))]. *)
Definition FILES : list string := dict_list (dict_fromkeys FILES_literal).

(** Line 29: [HEADER.format(path=...)] for the template
    ["# ===== {path} =====\n"]. *)
Definition HEADER (path : string) : string :=
  "# ===== " +:+ path +:+ " =====" +:+ LF.

(** Line 30: the default of the parameter [output]. *)
Definition OUTPUT : string := "solar_system_bundle.txt".

(** *** The host: file system and console *)

(** What the host answers for a path key.  The text of a file is the text
    that, written in text mode, gives its bytes.
    - [File (Some s)]: a regular file holding the text [s];
    - [File None]: a regular file whose bytes the encoding of the run does
      not decode;
    - [Dir]: a directory;
    - [Locked]: a file the process is not permitted to open;
    - [Unreachable why]: a name the host cannot examine: [os.stat] fails
      with an error other than "not found". *)
Inductive stat_failure : Type :=
  | NameTooLong
  | SearchDenied.

Inductive node : Type :=
  | File (text : option string)
  | Dir
  | Locked
  | Unreachable (why : stat_failure).

(** The exception raised for a name that cannot be examined: [OSError]
    (errno 36) for a name longer than the host allows, [PermissionError]
    (errno 13) under a directory that may not be searched. *)
Definition stat_error (why : stat_failure) (p : string) : exn :=
  match why with
  | NameTooLong => OSError p
  | SearchDenied => PermissionError p
  end.

Record world : Type := World {
  fs : gmap string node;
  console : list string
}.

(** Why the host does not let a path be opened for writing. *)
Inductive refusal : Type :=
  | NoSuchDirectory
  | NotPermitted.

(** What the platform and the keyword [encoding] of the run supply, and the
    sources only call.
    - [Path s] is [str(Path(s))], the host's normal form of the path [s],
      used as the key of the file in the file system;
    - [PurePosixPath p] is [str(PurePosixPath(p))] for a host path [p];
    - [linesep] is [os.linesep], which text mode stores for each line feed
      written;
    - [refused p] tells why the host refuses to open [p] for writing, if it
      does (parent directory missing, no permission);
    - [flushed chunks] is the part of the text handed to an open text file
      in the calls [write(c)] for [c] in [chunks] that has reached the
      file while it is still open; closing the file writes all of it;
    - [encoding_known] tells whether [encoding] names a codec;
    - [encodable s] tells whether that codec can encode the text [s]. *)
Class Host : Type := {
  Path : string -> string;
  PurePosixPath : string -> string;
  linesep : string;
  refused : string -> option refusal;
  flushed : list string -> string;
  encoding_known : bool;
  encodable : string -> bool
}.

(** Reading in text mode with universal newlines: each carriage return,
    alone or followed by a line feed, is read as one line feed. *)
Fixpoint universal_newlines (s : string) : string :=
  match s with
  | EmptyString => EmptyString
  | String c s' =>
      if decide (c = "013"%char) then
        match s' with
        | String c' s'' =>
            if decide (c' = "010"%char)
            then String "010" (universal_newlines s'')
            else String "010" (universal_newlines s')
        | EmptyString => String "010" EmptyString
        end
      else String c (universal_newlines s')
  end.

(** Writing in text mode: each line feed is stored as the line separator. *)
Fixpoint to_linesep (sep : string) (s : string) : string :=
  match s with
  | EmptyString => EmptyString
  | String c s' =>
      if decide (c = "010"%char) then sep +:+ to_linesep sep s'
      else String c (to_linesep sep s')
  end.

Section Bundler.
Context `{Host}.

Definition print (line : string) (w : world) : world :=
  World (fs w) (console w ++ [line]).

(** What reading in text mode returns for a file holding [text]. *)
Definition as_read (text : string) : string :=
  universal_newlines (to_linesep linesep text).

(** [p.exists()]: [False] for a name that is not there, and the error of
    [os.stat] for a name that cannot be examined. *)
Definition exists_ (p : string) (w : world) : result bool :=
  match fs w !! p with
  | None => Ok false
  | Some (Unreachable why) => Raise (stat_error why p)
  | Some _ => Ok true
  end.

(** [p.read_text(encoding=encoding)]: the file is opened, then the codec is
    looked up, then the bytes are decoded. *)
Definition read_text (p : string) (w : world) : result string :=
  match fs w !! p with
  | None => Raise (FileNotFoundError p)
  | Some Dir => Raise (IsADirectoryError p)
  | Some Locked => Raise (PermissionError p)
  | Some (Unreachable why) => Raise (stat_error why p)
  | Some (File content) =>
      if encoding_known then
        match content with
        | Some text => Ok (as_read text)
        | None => Raise (UnicodeDecodeError p)
        end
      else Raise (LookupError "encoding")
  end.

(** [out_path.open("w", encoding=encoding)]: the host opens the file,
    creating it or truncating it to the empty file; then the codec is looked
    up, and an unknown one closes the file again and raises. *)
Definition open_w (p : string) (w : world) : world * result unit :=
  match fs w !! p with
  | Some Dir => (w, Raise (IsADirectoryError p))
  | Some Locked => (w, Raise (PermissionError p))
  | Some (Unreachable why) => (w, Raise (stat_error why p))
  | _ =>
      match refused p with
      | Some NoSuchDirectory => (w, Raise (FileNotFoundError p))
      | Some NotPermitted => (w, Raise (PermissionError p))
      | None =>
          (World (<[p := File (Some "")]> (fs w)) (console w),
           if encoding_known then Ok tt else Raise (LookupError "encoding"))
      end
  end.

(** The local variables of [bundle] during the loop; [out_fp] holds the
    chunks written so far to the open output file. *)
Record frame : Type := Frame {
  count_ok : nat;
  count_skipped : nat;
  out_fp : list string
}.

(** [out_fp.write(s)] on the file opened at [p]: the text is encoded when it
    is written, and a text the codec cannot encode raises. *)
Definition write (p : string) (s : string) (fr : frame) (w : world)
  : frame * world * option exn :=
  if encodable s then
    let chunks := out_fp fr ++ [s] in
    (Frame (count_ok fr) (count_skipped fr) chunks,
     World (<[p := File (Some (flushed chunks))]> (fs w)) (console w),
     None)
  else (fr, w, Some (UnicodeEncodeError s)).

(** Leaving the [with] block closes the file: everything written is in it. *)
Definition close (p : string) (fr : frame) (w : world) : world :=
  World (<[p := File (Some (joined (out_fp fr)))]> (fs w)) (console w).

(** Line 57: the warning for a missing file. *)
Definition warning (f : string) : string :=
  "⚠  " +:+ f +:+ " not found – skipped.".

(** Lines 66-69: the summary line. *)
Definition summary (ok skipped : nat) (out_path : string) : string :=
  ("✅  wrote " +:+ pretty ok +:+ " section(s) → " +:+ out_path +:+ " ")
  +:+ (if decide (skipped = 0%nat) then ""
       else "(skipped " +:+ pretty skipped +:+ ")").

(** Lines 55-64: the body of the loop for the entry [f].  The third
    component is the exception that left the body, if any. *)
Definition visit (out_path : string) (f : string) (fr : frame) (w : world)
  : frame * world * option exn :=
  let p := Path f in
  match exists_ p w with
  | Raise e => (fr, w, Some e)
  | Ok false =>
      let w := print (warning f) w in
      (Frame (count_ok fr) (S (count_skipped fr)) (out_fp fr), w, None)
  | Ok true =>
      match write out_path (HEADER (PurePosixPath p)) fr w with
      | (fr, w, Some e) => (fr, w, Some e)
      | (fr, w, None) =>
          match read_text p w with
          | Raise e => (fr, w, Some e)
          | Ok text =>
              match write out_path text fr w with
              | (fr, w, Some e) => (fr, w, Some e)
              | (fr, w, None) =>
                  match write out_path (LF +:+ LF) fr w with
                  | (fr, w, Some e) => (fr, w, Some e)
                  | (fr, w, None) =>
                      (Frame (S (count_ok fr)) (count_skipped fr) (out_fp fr),
                       w, None)
                  end
              end
          end
      end
  end.

(** Lines 54-64: the loop over [files]; an exception ends it. *)
Fixpoint for_files (out_path : string) (files : list string)
    (fr : frame) (w : world) : frame * world * option exn :=
  match files with
  | [] => (fr, w, None)
  | f :: rest =>
      match visit out_path f fr w with
      | (fr, w, None) => for_files out_path rest fr w
      | (fr, w, Some e) => (fr, w, Some e)
      end
  end.

(** Lines 48-65: [bundle] up to the end of the [with] block, with the local
    variables it ends with. *)
Definition bundle_body (files : option (list string)) (output : string)
    (w : world) : frame * world * option exn :=
  let files := default FILES files in
  let out_path := Path output in
  let fr := Frame 0 0 [] in
  match open_w out_path w with
  | (w, Raise e) => (fr, w, Some e)
  | (w, Ok _) =>
      let '(fr, w, e) := for_files out_path files fr w in
      (fr, close out_path fr w, e)
  end.

(** Lines 33-70: [bundle(files, output, encoding=...)], the encoding being
    the one the [Host] describes.  It returns the output path. *)
Definition bundle (files : option (list string)) (output : string)
    (w : world) : world * result string :=
  let out_path := Path output in
  match bundle_body files output w with
  | (fr, w, Some e) => (w, Raise e)
  | (fr, w, None) =>
      (print (summary (count_ok fr) (count_skipped fr) out_path) w, Ok out_path)
  end.

(** Lines 74-75: the call [bundle()] made when the file is run. *)
Definition script (w : world) : world * result string :=
  bundle None OUTPUT w.

(** The three chunks that make the section of the file [f] with text
    [body]. *)
Definition section_chunks (sec : string * string) : list string :=
  [HEADER (PurePosixPath (Path sec.1)); sec.2; LF +:+ LF].

(** Whether [f] refers to something once [output] has been opened: the
    output file itself, or what the file system held before. *)
Definition present (output : string) (w : world) (f : string) : bool :=
  bool_decide (Path f = Path output) || bool_decide (is_Some (fs w !! Path f)).

(** The output file is a regular file from the moment it is opened. *)
Definition opened (out : string) (m : gmap string node) : Prop :=
  ∃ content, m !! out = Some (File content).

(** Whether the host opens [p] for writing: nothing is there or a regular
    file is, and the host does not refuse. *)
Definition openable (p : string) (w : world) : Prop :=
  (fs w !! p = None ∨ opened p (fs w)) ∧ refused p = None.




End Bundler.

(** **** [pathlib] on a POSIX host *)

(** The number of slashes a string begins with, and what follows them. *)
Fixpoint leading_slashes (s : string) : nat * string :=
  match s with
  | String c s' =>
      if decide (c = "/"%char)
      then let '(n, rest) := leading_slashes s' in (S n, rest)
      else (O, s)
  | EmptyString => (O, EmptyString)
  end.

(** [s.split("/")] *)
Fixpoint split_slash (s : string) : list string :=
  match s with
  | EmptyString => [EmptyString]
  | String c s' =>
      if decide (c = "/"%char) then EmptyString :: split_slash s'
      else
        match split_slash s' with
        | x :: xs => String c x :: xs
        | [] => [String c EmptyString]
        end
  end.

(** ["/".join(parts)] *)
Fixpoint join_slash (parts : list string) : string :=
  match parts with
  | [] => EmptyString
  | [x] => x
  | x :: xs => x +:+ "/" +:+ join_slash xs
  end.

(** [str(PurePosixPath(s))]: the root is ["/"], or ["//"] for exactly two
    leading slashes; empty components and ["."] components are dropped; the
    empty path is ["."]. *)
Definition kept (rel : string) : list string :=
  filter (λ x, x ≠ "" ∧ x ≠ ".") (split_slash rel).

Definition posix_normal (s : string) : string :=
  let '(n, rel) := leading_slashes s in
  let body := join_slash (kept rel) in
  match n with
  | 0%nat => if decide (body = "") then "." else body
  | 2%nat => "//" +:+ body
  | _ => "/" +:+ body
  end.

(** A string without the separator ["/"]. *)
Definition slash_free (s : string) : Prop :=
  "/"%char ∉ String.list_ascii_of_string s.

(** A POSIX host given the encoding UTF-8: [Path] and [PurePosixPath] both
    render a path in the POSIX normal form, the line separator is the line
    feed, every path may be written, written text stays in memory until the
    file is closed (bundles shorter than the buffer), and every text is
    encoded. *)
Definition plain_host : Host :=
  {| Path := posix_normal;
     PurePosixPath := posix_normal;
     linesep := LF;
     refused := fun _ => None;
     flushed := fun _ => "";
     encoding_known := true;
     encodable := fun _ => true |}.

(** The path written with forward slashes only. *)
Fixpoint forward_slashes (s : string) : string :=
  match s with
  | EmptyString => EmptyString
  | String c s' =>
      String (if decide (c = "\"%char) then "/"%char else c) (forward_slashes s')
  end.

(** One text file [a.txt] holding [hi]; [B.txt] does not exist; [d] is a
    directory. *)
Definition demo_world : world :=
  World (<["d" := Dir]> (<["a.txt" := File (Some "hi")]> ∅)) [].

(** A POSIX file system holding the first file of the built-in list, whose
    name has no slash, and [docs/a.txt]. *)
Definition posix_world : world :=
  World (<["docs/a.txt" := File (Some "hi")]>
           (<["C:\Users\Alif\Documents\GitHub\solar-system\index.html" :=
                File (Some "<html>")]> ∅)) [].


End Concat.

Module Serve.

Local Open Scope Z_scope.

(** *** The request handler of [serve.py] *)

(** The part of a [BaseHTTPRequestHandler] that header sending touches:
    the protocol version of the request being answered, the buffered header
    lines, the bytes handed to the client and the keep-alive flag. *)
Record handler : Type := Handler {
  request_version : string;
  headers_buffer : list string;
  wfile : string;
  close_connection : bool
}.

Definition lower_char (c : ascii) : ascii :=
  let n := nat_of_ascii c in
  if (65 <=? n)%nat && (n <=? 90)%nat then ascii_of_nat (n + 32)%nat else c.

(** [str.lower()] on ASCII text. *)
Fixpoint lower (s : string) : string :=
  match s with
  | EmptyString => EmptyString
  | String c s' => String (lower_char c) (lower s')
  end.

Module BaseHTTPRequestHandler.

(** The methods [DevHandler] inherits from the standard library's
    [http.server.BaseHTTPRequestHandler].  An HTTP/0.9 reply has no header
    section: both methods leave the buffer alone for it. *)
Definition send_header (keyword value : string) (h : handler) : handler :=
  let buffer :=
    if decide (request_version h = "HTTP/0.9") then headers_buffer h
    else headers_buffer h ++ [keyword +:+ ": " +:+ value +:+ CRLF] in
  let closing :=
    if decide (lower keyword = "connection") then
      if decide (lower value = "close") then true
      else if decide (lower value = "keep-alive") then false
      else close_connection h
    else close_connection h in
  Handler (request_version h) buffer (wfile h) closing.

Definition flush_headers (h : handler) : handler :=
  Handler (request_version h) []
    (wfile h +:+ joined (headers_buffer h)) (close_connection h).

Definition end_headers (h : handler) : handler :=
  if decide (request_version h = "HTTP/0.9") then h
  else flush_headers
         (Handler (request_version h) (headers_buffer h ++ [CRLF])
            (wfile h) (close_connection h)).

End BaseHTTPRequestHandler.

Module DevHandler.

(** Lines 29-34: the override of [end_headers]. *)
Definition end_headers (h : handler) : handler :=
  let h := BaseHTTPRequestHandler.send_header
             "Cache-Control" "no-store, no-cache, must-revalidate" h in
  let h := BaseHTTPRequestHandler.send_header "Pragma" "no-cache" h in
  let h := BaseHTTPRequestHandler.send_header "Expires" "0" h in
  BaseHTTPRequestHandler.end_headers h.

End DevHandler.

(** *** Sockets, console and timers *)

(** The operating system as the server sees it: the (host, port) pairs that
    have a socket bound to them, the lines printed, and the timers started
    (delay in milliseconds, URL handed to [webbrowser.open]). *)
Record os : Type := OS {
  bound : gset (string * Z);
  stdout : list string;
  timers : list (Z * string)
}.

(** What the platform supplies:
    - [ephemeral host used]: the kernel's choice of a port for a bind to
      port 0 ([None] when it has none to give);
    - [base_dir]: the directory of [serve.py];
    - [malformed host]: the exception, if any, with which the host string is
      rejected as it is converted for the call (a name that the IDNA codec
      does not encode, a null character);
    - [resolves host]: whether the host string is an IPv4 address or a name
      that resolves to one;
    - [denied host port]: the error, if any, with which the kernel refuses a
      bind to that address whatever is bound (a privileged port, an address
      that is not local);
    - [overlaps host host']: whether the two host strings denote addresses
      on which one port cannot be bound twice (names of one address, the
      wildcard address). *)
Class Platform : Type := {
  ephemeral : string -> gset (string * Z) -> option Z;
  base_dir : string;
  malformed : string -> option exn;
  resolves : string -> bool;
  denied : string -> Z -> option exn;
  overlaps : string -> string -> bool
}.

Section Server.
Context `{Platform}.

Definition print (line : string) (o : os) : os :=
  OS (bound o) (stdout o ++ [line]) (timers o).

(** Whether a socket bound on [port] stands in the way of a bind to
    [host]. *)
Definition in_use (host : string) (port : Z) (o : os) : bool :=
  bool_decide
    (Exists (λ hp : string * Z,
               hp.2 = port ∧ (hp.1 = host ∨ overlaps host hp.1 = true))
       (elements (bound o))).

(** [socket.bind((host, port))] followed by reading the port back.  The
    arguments are converted first: the host string, then the port, which
    must fit a C [int]; then the host is resolved; then the port must lie in
    0..65535; then the kernel is asked.  For port 0 the kernel assigns a
    port of its choice, which is never 0 and never one it would refuse or
    one in use; it answers "address already in use" when it has none. *)
Definition sock_bind (host : string) (port : Z) (o : os) : result (Z * os) :=
  match malformed host with
  | Some e => Raise e
  | None =>
      if decide (-2147483648 <= port < 2147483648) then
        if negb (resolves host) then Raise (gaierror host)
        else if decide (0 <= port < 65536) then
          match denied host port with
          | Some e => Raise e
          | None =>
              if decide (port = 0) then
                match ephemeral host (bound o) with
                | Some p =>
                    if decide (0 < p < 65536 ∧ denied host p = None
                               ∧ in_use host p o = false)
                    then Ok (p, OS ({[ (host, p) ]} ∪ bound o)
                                  (stdout o) (timers o))
                    else Raise (OSError "Address already in use")
                | None => Raise (OSError "Address already in use")
                end
              else if in_use host port o
              then Raise (OSError "Address already in use")
              else Ok (port, OS ({[ (host, port) ]} ∪ bound o)
                             (stdout o) (timers o))
          end
        else Raise OverflowError
      else Raise OverflowError
  end.

Definition sock_close (host : string) (port : Z) (o : os) : os :=
  OS (bound o ∖ {[ (host, port) ]}) (stdout o) (timers o).

(** Lines 37-42. *)
Definition find_free_port (host : string) (port : Z) (o : os)
  : os * result Z :=
  if decide (port ≠ 0) then (o, Ok port)
  else
    match sock_bind host 0 o with
    | Raise e => (o, Raise e)
    | Ok (p, o) => (sock_close host p o, Ok p)
    end.

Definition mem_char (c : ascii) (chars : string) : bool :=
  bool_decide (c ∈ String.list_ascii_of_string chars).

(** [s.lstrip(chars)] *)
Fixpoint lstrip (chars : string) (s : string) : string :=
  match s with
  | EmptyString => EmptyString
  | String c s' => if mem_char c chars then lstrip chars s' else s
  end.

(** [n] slashes in a row. *)
Fixpoint slashes (n : nat) : string :=
  match n with
  | O => EmptyString
  | S n => String "/" (slashes n)
  end.

(** Python truthiness of a [str | None]. *)
Definition truthy (s : option string) : bool :=
  match s with
  | Some (String _ _) => true
  | _ => false
  end.

(** Line 54: the base URL. *)
Definition base_url (host : string) (port : Z) : string :=
  "http://" +:+ host +:+ ":" +:+ pretty port +:+ "/".

(** Lines 57-60: announce and schedule the browser tab. *)
Definition schedule_open (url : string) (open_path : option string) (o : os)
  : os :=
  match open_path with
  | Some path =>
      if truthy open_path then
        let open_url := url +:+ lstrip "/" path in
        let o := print ("Opening: " +:+ open_url) o in
        OS (bound o) (stdout o) (timers o ++ [(400, open_url)])
      else o
  | None => o
  end.

(** Lines 45-68.  [serving] is how the call [httpd.serve_forever()] ends:
    it returns, or an exception leaves it. *)
Definition run_server (host : string) (port : Z) (open_path : option string)
    (serving : result unit) (o : os) : os * result Z :=
  match find_free_port host port o with
  | (o, Raise e) => (o, Raise e)
  | (o, Ok port) =>
      match sock_bind host port o with
      | Raise e => (o, Raise e)
      | Ok (server_port, o) =>
          let url := base_url host port in
          let o := print ("Serving " +:+ base_dir +:+ " at " +:+ url) o in
          let o := schedule_open url open_path o in
          match serving with
          | Ok _ => (sock_close host server_port o, Ok 0)
          | Raise KeyboardInterrupt =>
              let o := print (LF +:+ "Shutting down…") o in
              (sock_close host server_port o, Ok 0)
          | Raise e => (sock_close host server_port o, Raise e)
          end
      end
  end.

(** [run_server] on a machine where other processes bind sockets too:
    [others] is what they have done to the set of bound sockets between the
    release of the probe (line 42) and the bind of the server (line 52), and
    [serving] tells how the serve loop ends in the state it runs in. *)
Definition run_server_among (others : gset (string * Z) -> gset (string * Z))
    (host : string) (port : Z) (open_path : option string)
    (serving : os -> result unit) (o : os) : os * result Z :=
  match find_free_port host port o with
  | (o, Raise e) => (o, Raise e)
  | (o, Ok port) =>
      let o := OS (others (bound o)) (stdout o) (timers o) in
      match sock_bind host port o with
      | Raise e => (o, Raise e)
      | Ok (server_port, o) =>
          let url := base_url host port in
          let o := print ("Serving " +:+ base_dir +:+ " at " +:+ url) o in
          let o := schedule_open url open_path o in
          match serving o with
          | Ok _ => (sock_close host server_port o, Ok 0)
          | Raise KeyboardInterrupt =>
              let o := print (LF +:+ "Shutting down…") o in
              (sock_close host server_port o, Ok 0)
          | Raise e => (sock_close host server_port o, Raise e)
          end
      end
  end.

(** The [argparse] namespace of [serve.py]. *)
Record Namespace : Type := Args {
  host : string;
  port : Z;
  open : option string;
  solar : bool;
  gr : bool
}.

(** Lines 79-90: [main] after [parse_args]. *)
Definition main (args : Namespace) (serving : result unit) (o : os)
  : os * result Z :=
  let open_path :=
    if solar args then Some "Solar-System/index.html"
    else if gr args then Some "general-relativity.html"
    else if truthy (open args) then open args
    else None in
  run_server (host args) (port args) open_path serving o.

End Server.

(** Declared command-line arguments: flag, how the value is stored, and the
    default. *)
Inductive arg_value : Type :=
  | VNone
  | VStr (s : string)
  | VInt (z : Z)
  | VBool (b : bool).

Inductive arg_action : Type :=
  | store_str
  | store_int
  | store_true.

Record argument : Type := Argument {
  flag : string;
  action : arg_action;
  default_value : arg_value
}.

(** Lines 72-77: the arguments added to the parser. *)
Definition parser : list argument :=
  [ Argument "--host" store_str (VStr "127.0.0.1");
    Argument "--port" store_int (VInt 8000);
    Argument "--open" store_str VNone;
    Argument "--solar" store_true (VBool false);
    Argument "--gr" store_true (VBool false) ].

(** A kernel that hands out the lowest free port from 49152 upwards. *)
Definition lowest_free (host : string) (used : gset (string * Z)) : option Z :=
  List.find (fun p => bool_decide ((host, p) ∉ used)) (seqZ 49152%Z 16384%Z).

(** A machine on which every host string resolves, no bind is refused, and
    only equal host strings denote one address. *)
Definition demo_platform : Platform :=
  {| ephemeral := lowest_free;
     base_dir := "/home/user/physics-sims";
     malformed := fun _ => None;
     resolves := fun _ => true;
     denied := fun _ _ => None;
     overlaps := fun _ _ => false |}.


(** Another process binds [hp]. *)
Definition grab (hp : string * Z) (used : gset (string * Z))
  : gset (string * Z) :=
  {[ hp ]} ∪ used.

Definition idle : os := OS ∅ [] [].

End Serve.

Module ServeSolar.

Local Open Scope Z_scope.

(** The [argparse] namespace of [serve_solar.py]. *)
Record Namespace : Type := Args {
  host : string;
  port : Z
}.

(** Lines 15-17: the arguments added to the parser. *)
Definition parser : list Serve.argument :=
  [ Serve.Argument "--host" Serve.store_str (Serve.VStr "127.0.0.1");
    Serve.Argument "--port" Serve.store_int (Serve.VInt 8000) ].

(** Lines 18-19: [main] after [parse_args]. *)
Definition main `{Serve.Platform} (args : Namespace)
    (serving : result unit) (o : Serve.os) : Serve.os * result Z :=
  Serve.run_server (host args) (port args) (Some "Solar-System/index.html")
    serving o.

End ServeSolar.

(** * Properties *)

(** ** The bundler: deduplication of the built-in list *)

Section Dedup.
Import Concat.

Lemma dict_setitem_keys {V : Type} (k : string) (v : V) (d : list (string * V)) :
  dict_list (dict_setitem k v d)
  = dict_list d ++ (if decide (k ∈ dict_list d) then [] else [k]).
Proof.
  unfold dict_list. induction d as [|[k' v'] d IH]; [done|].
  cbn [dict_setitem]. destruct (decide (k = k')) as [->|Hne].
  - rewrite !fmap_cons. cbn [fst].
    rewrite decide_True; [by rewrite app_nil_r | apply list_elem_of_here].
  - rewrite !fmap_cons, IH. cbn [fst]. rewrite <- app_comm_cons. f_equal. f_equal.
    destruct (decide (k ∈ d.*1)) as [Hin|Hout].
    + rewrite decide_True; [done | by apply list_elem_of_further].
    + rewrite decide_False; [done |].
      intros Hin. apply elem_of_cons in Hin as [?|?]; done.
Qed.

Lemma fromkeys_snoc (l : list string) (x : string) :
  dict_list (dict_fromkeys (l ++ [x]))
  = dict_list (dict_fromkeys l)
    ++ (if decide (x ∈ dict_list (dict_fromkeys l)) then [] else [x]).
Proof. unfold dict_fromkeys. rewrite foldl_snoc. apply dict_setitem_keys. Qed.

Lemma fromkeys_elem (l : list string) (x : string) :
  x ∈ dict_list (dict_fromkeys l) ↔ x ∈ l.
Proof.
  induction l as [|y l IH] using rev_ind.
  - done.
  - rewrite fromkeys_snoc, !elem_of_app, IH.
    destruct (decide (y ∈ dict_list (dict_fromkeys l))) as [Hin|Hout].
    + rewrite elem_of_nil. split; [intros [?|[]]; by left|].
      intros [?|Hy]; [by left|]. apply list_elem_of_singleton in Hy as ->.
      left. by apply IH.
    + done.
Qed.

Lemma fromkeys_NoDup (l : list string) : NoDup (dict_list (dict_fromkeys l)).
Proof.
  induction l as [|y l IH] using rev_ind.
  - constructor.
  - rewrite fromkeys_snoc.
    destruct (decide (y ∈ dict_list (dict_fromkeys l))) as [Hin|Hout].
    + by rewrite app_nil_r.
    + apply NoDup_app. split_and!; [done | | apply NoDup_singleton].
      intros z Hz Hy. apply list_elem_of_singleton in Hy as ->. done.
Qed.

Lemma fromkeys_sublist (l : list string) :
  dict_list (dict_fromkeys l) `sublist_of` l.
Proof.
  induction l as [|y l IH] using rev_ind.
  - done.
  - rewrite fromkeys_snoc. apply sublist_app; [done|].
    case_decide; [apply sublist_nil_l | done].
Qed.

Lemma fromkeys_app (l1 l2 : list string) :
  ∃ r, dict_list (dict_fromkeys (l1 ++ l2)) = dict_list (dict_fromkeys l1) ++ r.
Proof.
  induction l2 as [|y l2 [r IH]] using rev_ind.
  - exists []. by rewrite !app_nil_r.
  - rewrite app_assoc, fromkeys_snoc, IH, <- app_assoc. eauto.
Qed.

Lemma fromkeys_first (l1 l2 : list string) (x : string) :
  x ∉ l1 →
  ∃ r, dict_list (dict_fromkeys (l1 ++ x :: l2))
       = dict_list (dict_fromkeys l1) ++ x :: r.
Proof.
  intros Hx. destruct (fromkeys_app (l1 ++ [x]) l2) as [r Hr].
  rewrite <- app_assoc in Hr. simpl in Hr. rewrite Hr, fromkeys_snoc.
  rewrite decide_False by (by rewrite fromkeys_elem).
  rewrite <- app_assoc. eauto.
Qed.

Lemma fromkeys_NoDup_id (l : list string) :
  NoDup l → dict_list (dict_fromkeys l) = l.
Proof.
  induction l as [|y l IH] using rev_ind; [done|].
  intros Hnodup. apply NoDup_app in Hnodup as (Hl & Hy & _).
  rewrite fromkeys_snoc, IH by done.
  rewrite decide_False; [done|].
  intros Hin. apply (Hy y Hin), list_elem_of_here.
Qed.

Lemma FILES_value : FILES = FILES_literal.
Proof. vm_compute. reflexivity. Qed.

End Dedup.

(** ** The bundler: the loop over the files *)


Lemma filter_all {A : Type} (P : A → Prop) `{!∀ x, Decision (P x)}
    (l : list A) :
  (∀ x, x ∈ l → P x) → filter P l = l.
Proof.
  induction l as [|x l IH]; intros Hl; [done|].
  rewrite filter_cons_True by (apply Hl, list_elem_of_here).
  f_equal. apply IH. intros y Hy. by apply Hl, list_elem_of_further.
Qed.

Section BundlerFacts.
Import Concat.
Context `{Host}.

Lemma opened_insert out content m : opened out (<[out := File content]> m).
Proof. exists content. apply lookup_insert_eq. Qed.

Lemma exists_insert (p out : string) (content : option string)
    (m : gmap string node) (c c' : list string) :
  opened out m →
  exists_ p (World (<[out := File content]> m) c) = exists_ p (World m c').
Proof.
  intros [old Hout]. unfold exists_. cbn [fs]. rewrite lookup_insert.
  case_decide; [subst; by rewrite Hout|done].
Qed.

(** Inserting at the output key keeps the loop's view of the other files. *)
Lemma insert_out_agree (out : string) (X : node) (m m0 : gmap string node) :
  (∀ p, p ≠ out → m !! p = m0 !! p) →
  ∀ p, p ≠ out → <[out := X]> m !! p = m0 !! p.
Proof. intros Hm p Hp. rewrite lookup_insert_ne by done. by apply Hm. Qed.

Lemma write_Some p s fr w fr' w' e :
  write p s fr w = (fr', w', Some e) →
  fr' = fr ∧ w' = w ∧ encodable s = false ∧ e = UnicodeEncodeError s.
Proof.
  unfold write. destruct (encodable s); intros Heq; by inversion Heq.
Qed.

Lemma write_None p s fr w fr' w' :
  write p s fr w = (fr', w', None) →
  encodable s = true
  ∧ fr' = Frame (count_ok fr) (count_skipped fr) (out_fp fr ++ [s])
  ∧ w' = World (<[p := File (Some (flushed (out_fp fr ++ [s])))]> (fs w))
           (console w).
Proof.
  unfold write. destruct (encodable s); intros Heq; by inversion Heq.
Qed.


(** A write changes the output file only, and nothing when it raises. *)
Lemma write_fs out s fr m c fr' w' e :
  opened out m →
  write out s fr (World m c) = (fr', w', e) →
  (∃ content, fs w' = <[out := File content]> m) ∧ console w' = c.
Proof.
  intros [old Hout] Hw. destruct e as [e|].
  - apply write_Some in Hw as (_ & -> & _). split; [|done].
    exists old. cbn. by rewrite insert_id.
  - apply write_None in Hw as (_ & _ & ->). split; [|done]. eauto.
Qed.

Lemma read_text_console p m c c' :
  read_text p (World m c) = read_text p (World m c').
Proof. done. Qed.

(** One entry touches no file but the output file. *)
Lemma visit_fs out f fr m c fr' w' e :
  opened out m →
  visit out f fr (World m c) = (fr', w', e) →
  ∃ content, fs w' = <[out := File content]> m.
Proof.
  intros Hout Hv. pose proof Hout as [old Hold].
  assert (∃ content, m = <[out := File content]> m) as Hsame
    by (exists old; by rewrite insert_id).
  unfold visit in Hv.
  destruct (exists_ (Path f) (World m c)) as [[|]|e0].
  - destruct (write out _ fr (World m c)) as [[fr1 w1] [e1|]] eqn:Hw1.
    { injection Hv as <- <- <-. by apply write_fs in Hw1 as [? _]. }
    apply write_None in Hw1 as (_ & -> & ->). cbn [fs console out_fp] in Hv.
    destruct (read_text _ _) as [text|e2]; [|injection Hv as <- <- <-; eauto].
    match type of Hv with
    | context [write out text ?fr2 ?w2] =>
        destruct (write out text fr2 w2) as [[fr3 w3] [e3|]] eqn:Hw3
    end.
    { apply write_Some in Hw3 as (_ & -> & _). injection Hv as <- <- <-. eauto. }
    apply write_None in Hw3 as (_ & -> & ->). cbn [fs console out_fp] in Hv.
    match type of Hv with
    | context [write out (LF +:+ LF) ?fr4 ?w4] =>
        destruct (write out (LF +:+ LF) fr4 w4) as [[fr5 w5] [e5|]] eqn:Hw5
    end.
    { apply write_Some in Hw5 as (_ & -> & _). injection Hv as <- <- <-.
      cbn [fs]. rewrite insert_insert_eq. eauto. }
    apply write_None in Hw5 as (_ & -> & ->). injection Hv as <- <- <-.
    cbn [fs]. rewrite !insert_insert_eq. eauto.
  - injection Hv as <- <- <-. exact Hsame.
  - injection Hv as <- <- <-. exact Hsame.
Qed.

(** What has been printed before only prefixes what an entry prints. *)
Lemma visit_console out f fr m c fr' w' e :
  visit out f fr (World m []) = (fr', w', e) →
  visit out f fr (World m c) = (fr', World (fs w') (c ++ console w'), e).
Proof.
  unfold visit, exists_, write, read_text, print. cbn [fs console].
  destruct (m !! Path f) as [[content| | |]|];
    try (intros [= <- <- <-]; cbn; by rewrite ?app_nil_r).
  all: destruct (encodable (HEADER _));
    try (intros [= <- <- <-]; cbn; by rewrite ?app_nil_r).
  all: cbn [fs console out_fp count_ok count_skipped].
  all: repeat match goal with
         | |- context [match ?x with _ => _ end] =>
             match x with
             | context [match _ with _ => _ end] => fail 1
             | _ => destruct x eqn:?
             end
         end;
       try (intros [= <- <- <-]; cbn; by rewrite ?app_nil_r).
Qed.

Lemma exists_opened out m0 f m c :
  opened out m →
  (∀ p, p ≠ out → m !! p = m0 !! p) →
  exists_ (Path f) (World m c)
  = if decide (Path f = out) then Ok true else exists_ (Path f) (World m0 c).
Proof.
  intros [old Hold] Hm. unfold exists_. cbn [fs]. case_decide as Hf.
  - by rewrite Hf, Hold.
  - by rewrite Hm.
Qed.

Lemma read_text_Ok (p body : string) (w : world) :
  read_text p w = Ok body →
  encoding_known = true
  ∧ ∃ text, fs w !! p = Some (File (Some text)) ∧ body = as_read text.
Proof.
  unfold read_text. destruct (fs w !! p) as [[[s|]| | |]|]; try done;
    destruct encoding_known; try done. intros [= <-]. eauto.
Qed.

(** An entry that raises nothing: either it is missing and the warning is
    printed, or its section is written.  [m0] holds the files other than the
    output file. *)
Lemma visit_ok out (m0 : gmap string node) f fr m c fr' w' :
  opened out m →
  (∀ p, p ≠ out → m !! p = m0 !! p) →
  visit out f fr (World m c) = (fr', w', None) →
  (Path f ≠ out ∧ m0 !! Path f = None
   ∧ fr' = Frame (count_ok fr) (S (count_skipped fr)) (out_fp fr)
   ∧ w' = World m (c ++ [warning f]))
  ∨ ((Path f = out ∨ is_Some (m0 !! Path f))
     ∧ ∃ body,
         fr' = Frame (S (count_ok fr)) (count_skipped fr)
                 (out_fp fr ++ section_chunks (f, body))
         ∧ console w' = c
         ∧ (Path f ≠ out →
            ∃ text, m0 !! Path f = Some (File (Some text)) ∧ body = as_read text)
         ∧ Forall (λ s, encodable s = true) (section_chunks (f, body))).
Proof.
  intros Hout Hm Hv. unfold visit in Hv.
  rewrite (exists_opened out m0) in Hv by done.
  assert (match (if decide (Path f = out) then Ok true
                 else exists_ (Path f) (World m0 c)) with
          | Ok true => Path f = out ∨ is_Some (m0 !! Path f)
          | Ok false => Path f ≠ out ∧ m0 !! Path f = None
          | Raise _ => True
          end) as Hcase.
  { case_decide; [by left|]. unfold exists_. cbn [fs].
    destruct (m0 !! Path f) as [[| | |]|]; eauto. }
  destruct (if decide (Path f = out) then Ok true
            else exists_ (Path f) (World m0 c)) as [[|]|e0]; [| |done].
  - right. split; [done|].
    destruct (write out _ fr (World m c)) as [[fr1 w1] [e1|]] eqn:Hw1; [done|].
    apply write_None in Hw1 as (Henc1 & -> & ->). cbn [fs console out_fp] in Hv.
    destruct (read_text _ _) as [body|e2] eqn:Hread; [|done].
    match type of Hv with
    | context [write out body ?fr2 ?w2] =>
        destruct (write out body fr2 w2) as [[fr3 w3] [e3|]] eqn:Hw3; [done|]
    end.
    apply write_None in Hw3 as (Henc3 & -> & ->). cbn [fs console out_fp] in Hv.
    match type of Hv with
    | context [write out (LF +:+ LF) ?fr4 ?w4] =>
        destruct (write out (LF +:+ LF) fr4 w4) as [[fr5 w5] [e5|]] eqn:Hw5;
          [done|]
    end.
    apply write_None in Hw5 as (Henc5 & -> & ->). injection Hv as <- <-.
    exists body. cbn [out_fp count_ok count_skipped console].
    split_and!.
    + unfold section_chunks. cbn [fst snd]. by rewrite <- !app_assoc.
    + done.
    + intros Hne. apply read_text_Ok in Hread as (_ & text & Htext & ->).
      cbn [fs] in Htext. rewrite lookup_insert_ne, Hm in Htext by done. eauto.
    + unfold section_chunks. cbn [fst snd]. by repeat constructor.
  - left. destruct Hcase as [? ?]. injection Hv as <- <-. done.
Qed.


(** The loop touches no file but the output file. *)
Lemma for_files_fs out files : ∀ fr m c fr' w' e,
  opened out m →
  for_files out files fr (World m c) = (fr', w', e) →
  ∃ content, fs w' = <[out := File content]> m.
Proof.
  induction files as [|f rest IH]; intros fr m c fr' w' e Hout Hrun.
  - cbn in Hrun. injection Hrun as <- <- <-. destruct Hout as [old Hold].
    exists old. cbn. by rewrite insert_id.
  - cbn [for_files] in Hrun.
    destruct (visit out f fr (World m c)) as [[fr1 [m1 c1]] [e1|]] eqn:Hv;
      apply visit_fs in Hv as [content Hm1]; try done; cbn [fs] in Hm1.
    + injection Hrun as <- <- <-. eauto.
    + apply IH in Hrun as [content' Hfs]; [|subst m1; apply opened_insert].
      exists content'. by rewrite Hfs, Hm1, insert_insert_eq.
Qed.

(** What has been printed before the loop only prefixes what it prints. *)
Lemma for_files_console out files : ∀ fr m c fr' w' e,
  opened out m →
  for_files out files fr (World m []) = (fr', w', e) →
  for_files out files fr (World m c) = (fr', World (fs w') (c ++ console w'), e).
Proof.
  induction files as [|f rest IH]; intros fr m c fr' w' e Hout Hrun.
  - cbn in *. injection Hrun as <- <- <-. cbn. by rewrite app_nil_r.
  - cbn [for_files] in *.
    destruct (visit out f fr (World m [])) as [[fr1 [m1 c1]] e1] eqn:Hv.
    rewrite (visit_console _ _ _ _ c _ _ _ Hv). cbn [fs console].
    apply visit_fs in Hv as [content Hm1]; [|done]. cbn [fs] in Hm1.
    destruct e1 as [e1|].
    + injection Hrun as <- <- <-. done.
    + assert (opened out m1) as Hout1 by (subst m1; apply opened_insert).
      destruct (for_files out rest fr1 (World m1 [])) as [[fr0 w0] e0] eqn:E0.
      pose proof (IH _ _ c1 _ _ _ Hout1 E0) as H1.
      pose proof (IH _ _ (c ++ c1) _ _ _ Hout1 E0) as H2.
      rewrite H1 in Hrun. injection Hrun as <- <- <-.
      rewrite H2. cbn. by rewrite <- app_assoc.
Qed.

(** A loop that ends without an exception: the sections written, the two
    counters and the warnings.  [P] tells which entries refer to something
    and [m0] holds the files other than the output file. *)
Lemma for_files_ok out (m0 : gmap string node) (P : string → bool) files :
  (∀ f, P f = bool_decide (Path f = out) || bool_decide (is_Some (m0 !! Path f))) →
  ∀ fr m c fr' w',
  opened out m →
  (∀ p, p ≠ out → m !! p = m0 !! p) →
  for_files out files fr (World m c) = (fr', w', None) →
  ∃ secs : list (string * string),
    secs.*1 = filter (λ f, P f) files
    ∧ out_fp fr' = out_fp fr ++ concat (section_chunks <$> secs)
    ∧ count_ok fr' = (count_ok fr + length secs)%nat
    ∧ count_skipped fr'
      = (count_skipped fr + length (filter (λ f, ¬ P f) files))%nat
    ∧ console w' = c ++ (warning <$> filter (λ f, ¬ P f) files)
    ∧ Forall (λ sec, Path sec.1 ≠ out →
                     ∃ text, m0 !! Path sec.1 = Some (File (Some text))
                             ∧ sec.2 = as_read text) secs
    ∧ Forall (λ s, encodable s = true) (concat (section_chunks <$> secs)).
Proof.
  intros HPdef.
  induction files as [|f rest IH]; intros fr m c fr' w' Hout Hm Hrun.
  - cbn in Hrun. injection Hrun as <- <-. exists []. cbn.
    rewrite !app_nil_r. split_and!; try done; lia.
  - cbn [for_files] in Hrun.
    destruct (visit out f fr (World m c)) as [[fr1 [m1 c1]] [e1|]] eqn:Hv;
      [done|].
    pose proof Hv as Hfs. apply visit_fs in Hfs as [content Hm1]; [|done].
    cbn [fs] in Hm1.
    apply (visit_ok out m0) in Hv; [|done..].
    apply IH in Hrun as (secs & Hsecs & Hfp & Hok & Hsk & Hcon & Hall & Henc);
      [|subst m1; apply opened_insert|subst m1; by apply insert_out_agree].
    destruct Hv as [(Hne & Hnone & -> & Hw)|(Hpres & body & -> & Hc & Hbody & Hb)].
    + injection Hw as _ ->. exists secs.
      assert (P f = false) as HP.
      { rewrite HPdef, bool_decide_eq_false_2 by done.
        rewrite bool_decide_eq_false_2; [done|]. rewrite Hnone. by intros [? ?]. }
      cbn [out_fp count_ok count_skipped] in *.
      rewrite filter_cons_False by (rewrite HP; cbn; tauto).
      rewrite (filter_cons_True _ f) by (rewrite HP; cbn; tauto).
      split_and!; try done.
      * rewrite Hsk. cbn [length]. lia.
      * rewrite Hcon, fmap_cons, <- app_assoc. done.
    + cbn [console] in Hc. subst c1. exists ((f, body) :: secs).
      assert (P f = true) as HP.
      { rewrite HPdef. destruct Hpres as [Heq|Hsome].
        - by rewrite bool_decide_eq_true_2.
        - rewrite (bool_decide_eq_true_2 (is_Some _)) by done.
          by rewrite orb_true_r. }
      cbn [out_fp count_ok count_skipped] in *.
      rewrite filter_cons_True by (rewrite HP; cbn; tauto).
      rewrite (filter_cons_False _ f) by (rewrite HP; cbn; tauto).
      split_and!; try done.
      * rewrite fmap_cons. by f_equal.
      * rewrite Hfp, fmap_cons. cbn [concat]. by rewrite <- !app_assoc.
      * rewrite Hok. cbn [length]. lia.
      * by constructor.
      * rewrite fmap_cons. cbn [concat]. by apply Forall_app.
Qed.



Lemma for_files_prints out files fr m c fr' w' e :
  opened out m →
  for_files out files fr (World m c) = (fr', w', e) →
  ∃ lines, console w' = c ++ lines.
Proof.
  intros Hout Hrun.
  destruct (for_files out files fr (World m [])) as [[fr0 w0] e0] eqn:E0.
  rewrite (for_files_console _ _ _ _ c _ _ _ Hout E0) in Hrun.
  injection Hrun as <- <- <-. cbn. eauto.
Qed.

(** The loop does the same whatever has been printed before it. *)
Lemma for_files_any_console out files fr m c fr' w' e :
  opened out m →
  for_files out files fr (World m c) = (fr', w', e) →
  ∀ c', ∃ c'', for_files out files fr (World m c') = (fr', World (fs w') c'', e).
Proof.
  intros Hout Hrun c'.
  destruct (for_files out files fr (World m [])) as [[fr0 w0] e0] eqn:E0.
  rewrite (for_files_console _ _ _ _ c _ _ _ Hout E0) in Hrun.
  injection Hrun as <- <- <-. cbn [fs].
  rewrite (for_files_console _ _ _ _ c' _ _ _ Hout E0). eauto.
Qed.

End BundlerFacts.

(** ** The bundler: whole runs *)

Section BundleFacts.
Import Concat.
Context `{Host}.

Lemma open_w_Ok (p : string) (w w1 : world) (u : unit) :
  open_w p w = (w1, Ok u) →
  openable p w ∧ encoding_known = true
  ∧ w1 = World (<[p := File (Some "")]> (fs w)) (console w).
Proof.
  unfold open_w, openable, opened. intros Hopen.
  destruct (fs w !! p) as [[t| | |why]|], (refused p) as [[|]|], encoding_known;
    inversion Hopen; eauto 6.
Qed.

Lemma open_w_openable (p : string) (w : world) :
  openable p w →
  open_w p w
  = (World (<[p := File (Some "")]> (fs w)) (console w),
     if encoding_known then Ok tt else Raise (LookupError "encoding")).
Proof.
  unfold open_w, openable, opened. intros [[Hnone|[t Ht]] ->].
  - by rewrite Hnone.
  - by rewrite Ht.
Qed.

(** An open that raises leaves the world as it is, or leaves the output
    file created, empty, when it is the codec that is unknown. *)
Lemma open_w_Raise (p : string) (w w1 : world) (e : exn) :
  open_w p w = (w1, Raise e) →
  w1 = w
  ∨ (openable p w ∧ encoding_known = false ∧ e = LookupError "encoding"
     ∧ w1 = World (<[p := File (Some "")]> (fs w)) (console w)).
Proof.
  unfold open_w, openable, opened. intros Hopen.
  destruct (fs w !! p) as [[t| | |why]|], (refused p) as [[|]|], encoding_known;
    inversion Hopen; eauto 10.
Qed.

(** Opening again what an open or a run has left gives the same. *)
Lemma open_w_again (p : string) (m : gmap string node) (c c' : list string)
    (w1 : world) (r : result unit) (content : option string) :
  open_w p (World m c) = (w1, r) →
  openable p (World m c) →
  open_w p (World (<[p := File content]> (fs w1)) c')
  = (World (fs w1) c', r).
Proof.
  intros Hopen Hable. rewrite (open_w_openable _ _ Hable) in Hopen.
  injection Hopen as <- <-. cbn [fs].
  rewrite open_w_openable.
  - cbn [fs console]. by rewrite !insert_insert_eq.
  - destruct Hable as [_ Href]. split; [|done]. right. cbn [fs].
    exists content. apply lookup_insert_eq.
Qed.

Lemma present_def (output : string) (w : world) (f : string) :
  present output w f
  = bool_decide (Path f = Path output)
    || bool_decide (is_Some (fs w !! Path f)).
Proof. done. Qed.

(** A run whose [with] block ends without an exception. *)
Lemma bundle_body_ok files output w fr w1 :
  bundle_body files output w = (fr, w1, None) →
  ∃ secs : list (string * string),
    secs.*1 = filter (λ f, present output w f) (default FILES files)
    ∧ out_fp fr = concat (section_chunks <$> secs)
    ∧ count_ok fr = length secs
    ∧ count_skipped fr
      = length (filter (λ f, ¬ present output w f) (default FILES files))
    ∧ console w1
      = console w
        ++ (warning <$> filter (λ f, ¬ present output w f) (default FILES files))
    ∧ fs w1 = <[Path output := File (Some (joined (out_fp fr)))]> (fs w)
    ∧ Forall (λ sec, Path sec.1 ≠ Path output →
                     ∃ text, fs w !! Path sec.1 = Some (File (Some text))
                             ∧ sec.2 = as_read text) secs.
Proof.
  unfold bundle_body. intros Hrun.
  destruct (open_w (Path output) w) as [w0 [[]|e0]] eqn:Hopen; [|done].
  apply open_w_Ok in Hopen as (_ & _ & ->).
  destruct (for_files _ _ _ _) as [[fr0 wL] e] eqn:Hloop.
  injection Hrun as <- <- ->.
  pose proof Hloop as Hfs. apply for_files_fs in Hfs as [X Hfs];
    [|apply opened_insert].
  eapply (for_files_ok _ (fs w) (present output w)) in Hloop
    as (secs & Hsecs & Hfp & Hok & Hsk & Hcon & Hall & _).
  - exists secs. cbn [out_fp count_ok count_skipped] in *.
    split_and!; try done.
    unfold close. cbn [fs]. by rewrite Hfs, !insert_insert_eq.
  - apply present_def.
  - apply opened_insert.
  - intros p Hp. by rewrite lookup_insert_ne.
Qed.

(** Running the body again on the file system it left behind gives the same
    local variables, the same file system and the same exception, if any. *)
Lemma bundle_body_rerun files output w fr w1 e :
  bundle_body files output w = (fr, w1, e) →
  ∀ c', ∃ c'',
    bundle_body files output (World (fs w1) c') = (fr, World (fs w1) c'', e).
Proof.
  unfold bundle_body. intros Hrun c'. destruct w as [m c].
  destruct (open_w (Path output) (World m c)) as [w0 [[]|e0]] eqn:Hopen.
  - pose proof Hopen as Hok. apply open_w_Ok in Hok as (Hable & _ & Hw0).
    destruct (for_files _ _ _ _) as [[fr0 wL] eL] eqn:Hloop.
    injection Hrun as <- <- <-. subst w0. cbn [fs console] in *.
    pose proof Hloop as Hfs. apply for_files_fs in Hfs as [X Hfs];
      [|apply opened_insert].
    unfold close at 1 2. cbn [fs].
    rewrite Hfs, !insert_insert_eq.
    pose proof (open_w_again _ _ _ c' _ _ (Some (joined (out_fp fr0)))
                  Hopen Hable) as Hre.
    cbn [fs] in Hre. rewrite insert_insert_eq in Hre. rewrite Hre.
    eapply for_files_any_console in Hloop as [c'' ->]; [|apply opened_insert].
    exists c''. unfold close. cbn [fs console].
    by rewrite Hfs, !insert_insert_eq.
  - injection Hrun as <- <- <-.
    destruct (open_w_Raise _ _ _ _ Hopen) as [->|(Hable & Hunk & -> & ->)].
    + exists c'. cbn [fs].
      assert (open_w (Path output) (World m c') = (World m c', Raise e0))
        as ->; [|done].
      revert Hopen. unfold open_w. cbn [fs console].
      destruct (m !! Path output) as [[t| | |why]|],
        (refused (Path output)) as [[|]|],
        encoding_known; try done; intros Heq; congruence.
    + exists c'. cbn [fs]. rewrite open_w_openable.
      * cbn [fs console]. by rewrite Hunk, insert_insert_eq.
      * destruct Hable as [_ Href]. split; [|done]. right. cbn [fs].
        apply opened_insert.
Qed.


End BundleFacts.

(** ** [pathlib] on a POSIX host *)

Section PosixPaths.
Import Concat.

Lemma slash_free_cons (c : ascii) (s : string) :
  slash_free (String c s) ↔ c ≠ "/"%char ∧ slash_free s.
Proof.
  unfold slash_free. cbn [String.list_ascii_of_string].
  rewrite not_elem_of_cons.
  split; intros [Hc Hs]; (split; [congruence|done]).
Qed.

Lemma slash_free_nil : slash_free "".
Proof. unfold slash_free. cbn. apply not_elem_of_nil. Qed.

Lemma split_slash_free (s : string) : slash_free s → split_slash s = [s].
Proof.
  induction s as [|c s IH]; [done|].
  intros [Hc Hs]%slash_free_cons. cbn [split_slash].
  rewrite decide_False by done. by rewrite IH.
Qed.

Lemma split_slash_cons (x rest : string) :
  slash_free x → split_slash (x +:+ "/" +:+ rest) = x :: split_slash rest.
Proof.
  induction x as [|c x IH].
  - intros _. change ("" +:+ "/" +:+ rest) with (String "/" rest).
    cbn [split_slash]. by rewrite decide_True.
  - intros [Hc Hx]%slash_free_cons.
    change (String c x +:+ "/" +:+ rest) with (String c (x +:+ "/" +:+ rest)).
    cbn [split_slash]. rewrite decide_False by done. by rewrite IH.
Qed.

Lemma split_slash_components (s : string) : Forall slash_free (split_slash s).
Proof.
  induction s as [|c s IH]; cbn [split_slash].
  - apply Forall_singleton, slash_free_nil.
  - destruct (decide (c = "/"%char)) as [->|Hc].
    + apply Forall_cons. split; [apply slash_free_nil|done].
    + destruct (split_slash s) as [|x xs].
      * apply Forall_singleton, slash_free_cons. split; [done|].
        apply slash_free_nil.
      * apply Forall_cons in IH as [Hx Hxs]. apply Forall_cons.
        split; [|done]. by apply slash_free_cons.
Qed.

Lemma split_join_slash (l : list string) :
  l ≠ [] → Forall slash_free l → split_slash (join_slash l) = l.
Proof.
  induction l as [|x l IH]; [done|]. intros _ [Hx Hl]%Forall_cons.
  destruct l as [|y l].
  - cbn [join_slash]. by apply split_slash_free.
  - change (join_slash (x :: y :: l)) with (x +:+ "/" +:+ join_slash (y :: l)).
    rewrite split_slash_cons by done. by rewrite IH.
Qed.

Lemma leading_slashes_none (c : ascii) (s : string) :
  c ≠ "/"%char → leading_slashes (String c s) = (0%nat, String c s).
Proof. intros Hc. cbn [leading_slashes]. by rewrite decide_False. Qed.

(** The join of components that are not empty begins with the first
    character of the first of them. *)
Lemma join_slash_head (x : string) (l : list string) :
  x ≠ "" → slash_free x →
  ∃ c s, join_slash (x :: l) = String c s ∧ c ≠ "/"%char.
Proof.
  destruct x as [|c x]; [done|]. intros _ [Hc _]%slash_free_cons.
  destruct l as [|y l].
  - by exists c, x.
  - exists c, (x +:+ "/" +:+ join_slash (y :: l)). done.
Qed.

Lemma kept_components (rel : string) :
  Forall (λ x, slash_free x ∧ x ≠ "" ∧ x ≠ ".") (kept rel).
Proof.
  apply Forall_forall. intros x [Hx Hin]%list_elem_of_filter. split; [|done].
  pose proof (split_slash_components rel) as Hall.
  rewrite Forall_forall in Hall. by apply Hall.
Qed.

Lemma kept_join (rel : string) :
  kept rel ≠ [] → kept (join_slash (kept rel)) = kept rel.
Proof.
  intros Hne. pose proof (kept_components rel) as Hall.
  unfold kept at 1. rewrite split_join_slash.
  - apply filter_all. intros x Hx. rewrite Forall_forall in Hall.
    by apply Hall.
  - done.
  - eapply Forall_impl; [exact Hall|]. by intros x [? _].
Qed.

Lemma posix_normal_relative (c : ascii) (s : string) :
  c ≠ "/"%char → kept (String c s) ≠ [] →
  posix_normal (String c s) = join_slash (kept (String c s)).
Proof.
  intros Hc Hne. unfold posix_normal. rewrite leading_slashes_none by done.
  destruct (kept (String c s)) as [|x l] eqn:Hk; [done|].
  pose proof (kept_components (String c s)) as Hall. rewrite Hk in Hall.
  apply Forall_cons in Hall as [(Hx & Hx' & _) _].
  destruct (join_slash_head x l Hx' Hx) as (c' & s' & -> & _).
  by rewrite decide_False.
Qed.

(** [PurePosixPath] of a path in normal form is that path. *)
Lemma posix_normal_idem (s : string) :
  posix_normal (posix_normal s) = posix_normal s.
Proof.
  unfold posix_normal at 2 3. destruct (leading_slashes s) as [n rel].
  destruct (kept rel) as [|x l] eqn:Hk.
  - cbn [join_slash]. destruct n as [|[|[|n]]]; by vm_compute.
  - pose proof (kept_components rel) as Hall. rewrite Hk in Hall.
    pose proof Hall as [(Hx & Hx' & _) _]%Forall_cons.
    destruct (join_slash_head x l Hx' Hx) as (c & b & Hbody & Hc).
    assert (kept (join_slash (x :: l)) = x :: l) as Hkept.
    { rewrite <- Hk. apply kept_join. by rewrite Hk. }
    assert (posix_normal (join_slash (x :: l)) = join_slash (x :: l)) as Hrel.
    { rewrite Hbody. rewrite posix_normal_relative; rewrite <- ?Hbody, ?Hkept;
        done. }
    assert (∀ k, leading_slashes (Serve.slashes k +:+ join_slash (x :: l))
                 = (k, join_slash (x :: l))) as Hlead.
    { induction k as [|k IH].
      - change (Serve.slashes 0 +:+ ?b) with b. rewrite Hbody.
        by apply leading_slashes_none.
      - change (Serve.slashes (S k) +:+ ?b) with (String "/" (Serve.slashes k +:+ b)).
        cbn [leading_slashes]. rewrite decide_True by done. by rewrite IH. }
    destruct n as [|[|[|n]]].
    + rewrite Hbody, decide_False by done. by rewrite <- Hbody.
    + unfold posix_normal. change ("/" +:+ ?b) with (Serve.slashes 1 +:+ b).
      rewrite Hlead. by rewrite Hkept.
    + unfold posix_normal. change ("//" +:+ ?b) with (Serve.slashes 2 +:+ b).
      rewrite Hlead. by rewrite Hkept.
    + unfold posix_normal. change ("/" +:+ ?b) with (Serve.slashes 1 +:+ b).
      rewrite Hlead. by rewrite Hkept.
Qed.

(** A name without a slash, other than the empty name and ["."], is its own
    normal form. *)
Lemma posix_normal_name (s : string) :
  slash_free s → s ≠ "" → s ≠ "." → posix_normal s = s.
Proof.
  intros Hfree Hne Hdot. destruct s as [|c s]; [done|].
  pose proof Hfree as [Hc _]%slash_free_cons.
  assert (kept (String c s) = [String c s]) as Hk.
  { unfold kept. rewrite split_slash_free by done.
    rewrite filter_cons_True by done. done. }
  rewrite posix_normal_relative; rewrite ?Hk; done.
Qed.

End PosixPaths.

(** ** The bundler: the claims *)

Section BundleClaims.
Import Concat.
Context `{Host}.

(** C1 (as amended).  [list(dict.fromkeys(l))] removes duplicates and keeps
    every path at the place of its first occurrence: the result has no
    duplicates, has the elements of [l], is a subsequence of [l], and what
    precedes a path in it is the deduplication of what precedes the first
    occurrence of that path in [l]; a list without duplicates is left as it
    is.  The built-in list [FILES] is deduplicated in this way when the
    module is loaded, and [bundle] called without a list produces the bundle
    from it. *)
Theorem default_list_deduplicated :
  (∀ l : list string,
     NoDup (dict_list (dict_fromkeys l))
     ∧ (∀ x, x ∈ dict_list (dict_fromkeys l) ↔ x ∈ l)
     ∧ dict_list (dict_fromkeys l) `sublist_of` l
     ∧ (∀ l1 x l2, l = l1 ++ x :: l2 → x ∉ l1 →
          ∃ r, dict_list (dict_fromkeys l)
               = dict_list (dict_fromkeys l1) ++ x :: r)
     ∧ (NoDup l → dict_list (dict_fromkeys l) = l))
  ∧ FILES = dict_list (dict_fromkeys FILES_literal)
  ∧ (∀ output w,
       bundle None output w
       = bundle (Some (dict_list (dict_fromkeys FILES_literal))) output w).
Proof.
  split_and!; [|done..].
  intros l. split_and!.
  - apply fromkeys_NoDup.
  - intros x. apply fromkeys_elem.
  - apply fromkeys_sublist.
  - intros l1 x l2 -> Hx. by apply fromkeys_first.
  - apply fromkeys_NoDup_id.
Qed.

(** C2 (as amended).  When the [with] block of [bundle] ends without an
    exception, the number of sections written plus the number of files
    skipped is the length of the list that was processed: the list given by
    the caller as it is, or the built-in list.  That length is the length of
    the deduplicated list when the list has no duplicates, which is always so
    for the built-in list.  The two counters are those of the summary line;
    the output file holds [count_ok] sections and the console received
    [count_skipped] warnings. *)
Theorem counts_add_up files output w fr w1 :
  bundle_body files output w = (fr, w1, None) →
  (count_ok fr + count_skipped fr)%nat = length (default FILES files)
  ∧ (NoDup (default FILES files) →
     (count_ok fr + count_skipped fr)%nat
     = length (dict_list (dict_fromkeys (default FILES files))))
  ∧ (files = None →
     (count_ok fr + count_skipped fr)%nat
     = length (dict_list (dict_fromkeys FILES_literal)))
  ∧ bundle files output w
    = (print (summary (count_ok fr) (count_skipped fr) (Path output)) w1,
       Ok (Path output))
  ∧ (∃ secs : list (string * string),
       length secs = count_ok fr
       ∧ fs w1 !! Path output
         = Some (File (Some (joined (concat (section_chunks <$> secs))))))
  ∧ (∃ missing : list string,
       length missing = count_skipped fr
       ∧ console w1 = console w ++ (warning <$> missing)).
Proof.
  intros Hrun. pose proof Hrun as Hbody.
  apply bundle_body_ok in Hrun
    as (secs & Hsecs & Hfp & Hok & Hsk & Hcon & Hfs & _).
  assert ((count_ok fr + count_skipped fr)%nat = length (default FILES files))
    as Hsum.
  { rewrite Hok, Hsk, <- (length_fmap fst secs), Hsecs, <- length_app.
    apply Permutation_length, filter_app_complement. }
  split_and!.
  - exact Hsum.
  - intros Hnodup. by rewrite fromkeys_NoDup_id.
  - intros ->. exact Hsum.
  - unfold bundle. by rewrite Hbody.
  - exists secs. split; [done|]. by rewrite Hfs, lookup_insert_eq, Hfp.
  - eexists. split; [|exact Hcon]. done.
Qed.

(** C5 (as amended).  After a run that returns, the output file is the
    concatenation, over the listed paths that were found and in their order,
    of the header line [# ===== <path> =====], the text read from the file
    and a blank line, where [<path>] is [str(PurePosixPath(Path(f)))] for
    the listed path [f].  On a POSIX host that rendering is the POSIX normal
    form of [f]: the slash is the only separator, so a name written without
    a slash (the empty name and [.] apart) is rendered as it is, with
    whatever backslashes it has. *)
Theorem section_headers files output w w' r :
  bundle files output w = (w', Ok r) →
  (∃ secs : list (string * string),
     secs.*1 = filter (λ f, present output w f) (default FILES files)
     ∧ fs w' !! Path output
       = Some (File (Some (joined (concat (
           (λ sec, [ "# ===== " +:+ PurePosixPath (Path sec.1) +:+ " =====" +:+ LF;
                     sec.2;
                     LF +:+ LF ]) <$> secs)))))
     ∧ Forall (λ sec, Path sec.1 ≠ Path output →
                      ∃ text, fs w !! Path sec.1 = Some (File (Some text))
                              ∧ sec.2 = as_read text) secs)
  ∧ (∀ f, @PurePosixPath plain_host (@Path plain_host f) = posix_normal f)
  ∧ (∀ f, slash_free f → f ≠ "" → f ≠ "." →
          @PurePosixPath plain_host (@Path plain_host f) = f).
Proof.
  unfold bundle. intros Hrun.
  destruct (bundle_body files output w) as [[fr w1] [e|]] eqn:Hbody; [done|].
  injection Hrun as <- <-.
  apply bundle_body_ok in Hbody
    as (secs & Hsecs & Hfp & Hok & Hsk & Hcon & Hfs & Hall).
  split_and!.
  - exists secs. split_and!; [done| |done].
    unfold print. cbn [fs]. by rewrite Hfs, lookup_insert_eq, Hfp.
  - intros f. apply posix_normal_idem.
  - intros f Hfree Hne Hdot. cbn [PurePosixPath Path plain_host].
    rewrite (posix_normal_name f) by done. by apply posix_normal_name.
Qed.

(** C6.  Running [bundle] again, with the same list and output path, on the
    file system left by a first run leaves every file as it is, the output
    file included, and ends the same way. *)
Theorem bundle_idempotent files output w :
  fs (bundle files output (bundle files output w).1).1
  = fs (bundle files output w).1
  ∧ (bundle files output (bundle files output w).1).2
    = (bundle files output w).2.
Proof.
  destruct (bundle_body files output w) as [[fr w1] e] eqn:Hbody.
  assert (∀ c', fs (bundle files output (World (fs w1) c')).1 = fs w1
                ∧ (bundle files output (World (fs w1) c')).2
                  = match e with Some e => Raise e | None => Ok (Path output) end)
    as Hre.
  { intros c'. destruct (bundle_body_rerun _ _ _ _ _ _ Hbody c') as [c'' Hre].
    unfold bundle. rewrite Hre. by destruct e. }
  assert (bundle files output w
          = match e with
            | Some e => (w1, Raise e)
            | None =>
                (print (summary (count_ok fr) (count_skipped fr) (Path output)) w1,
                 Ok (Path output))
            end) as ->.
  { unfold bundle. rewrite Hbody. by destruct e. }
  destruct w1 as [m1 c1]. destruct e as [e|]; apply Hre.
Qed.


End BundleClaims.

(** ** The development server *)

Lemma append_assoc (a b c : string) : (a +:+ b) +:+ c = a +:+ (b +:+ c).
Proof.
  induction a as [|x a IH]; [done|].
  change (String x ((a +:+ b) +:+ c) = String x (a +:+ (b +:+ c))).
  by f_equal.
Qed.

Section HandlerFacts.
Import Serve.




End HandlerFacts.

Section ServerFacts.
Import Serve.
Local Open Scope Z_scope.
Context `{Platform}.

(** A socket bound to the very address stands in the way. *)
Lemma in_use_bound host port o :
  (host, port) ∈ bound o → in_use host port o = true.
Proof.
  intros Hin. unfold in_use. apply bool_decide_eq_true_2, Exists_exists.
  exists (host, port). split; [by apply elem_of_elements|]. cbn. auto.
Qed.

Lemma in_use_free host port o :
  in_use host port o = false → (host, port) ∉ bound o.
Proof.
  intros Hfree Hin. apply in_use_bound in Hin. congruence.
Qed.

(** A bind that succeeds takes a port that was free and marks it bound. *)
Lemma sock_bind_Ok host port o sp o' :
  sock_bind host port o = Ok (sp, o') →
  0 < sp < 65536
  ∧ ((host, sp) ∉ bound o)
  ∧ (port ≠ 0 → sp = port)
  ∧ (port = 0 → ephemeral host (bound o) = Some sp)
  ∧ o' = OS ({[ (host, sp) ]} ∪ bound o) (stdout o) (timers o).
Proof.
  unfold sock_bind. intros Hbind.
  destruct (malformed host); [done|].
  destruct (decide (-2147483648 <= port < 2147483648)); [|done].
  destruct (resolves host); [|done]. cbn [negb] in Hbind.
  destruct (decide (0 <= port < 65536)) as [Hrange|]; [|done].
  destruct (denied host port); [done|].
  destruct (decide (port = 0)) as [->|Hport].
  - destruct (ephemeral host (bound o)) as [p|]; [|done].
    destruct (decide (0 < p < 65536 ∧ denied host p = None
                      ∧ in_use host p o = false)) as [(? & ? & Hfree)|];
      [|done].
    injection Hbind as <- <-. apply in_use_free in Hfree. done.
  - destruct (in_use host port o) eqn:Hfree; [done|].
    injection Hbind as <- <-. apply in_use_free in Hfree.
    split_and!; [lia|lia|done|done|done|done].
Qed.

(** A bind succeeds only for a host that resolves, at an address the kernel
    does not refuse and that no bound socket stands in the way of. *)
Lemma sock_bind_Ok_free host port o sp o' :
  sock_bind host port o = Ok (sp, o') →
  malformed host = None ∧ resolves host = true
  ∧ denied host sp = None ∧ in_use host sp o = false.
Proof.
  unfold sock_bind. intros Hbind.
  destruct (malformed host); [done|].
  destruct (decide (-2147483648 <= port < 2147483648)); [|done].
  destruct (resolves host); [|done]. cbn [negb] in Hbind.
  destruct (decide (0 <= port < 65536)) as [Hrange|]; [|done].
  destruct (denied host port) eqn:Hden; [done|].
  destruct (decide (port = 0)) as [->|Hport].
  - destruct (ephemeral host (bound o)) as [p|]; [|done].
    destruct (decide (0 < p < 65536 ∧ denied host p = None
                      ∧ in_use host p o = false)) as [(? & ? & Hfree)|];
      [|done].
    by injection Hbind as <- <-.
  - destruct (in_use host port o) eqn:Hfree; [done|].
    by injection Hbind as <- <-.
Qed.

Lemma sock_bind_free host port o :
  malformed host = None → resolves host = true → 0 < port < 65536 →
  denied host port = None → in_use host port o = false →
  sock_bind host port o
  = Ok (port, OS ({[ (host, port) ]} ∪ bound o) (stdout o) (timers o)).
Proof.
  intros Hwf Hres Hrange Hden Hfree. unfold sock_bind.
  rewrite Hwf, Hres. cbn [negb].
  rewrite !decide_True by lia. rewrite Hden, decide_False by lia.
  by rewrite Hfree.
Qed.

(** A bind to port 0 that the kernel answers with a port. *)
Lemma sock_bind_any host p o :
  malformed host = None → resolves host = true → denied host 0 = None →
  ephemeral host (bound o) = Some p →
  0 < p < 65536 → denied host p = None → in_use host p o = false →
  sock_bind host 0 o
  = Ok (p, OS ({[ (host, p) ]} ∪ bound o) (stdout o) (timers o)).
Proof.
  intros Hwf Hres Hzero Hp Hrange Hden Hfree. unfold sock_bind.
  rewrite Hwf, Hres. cbn [negb].
  rewrite !decide_True by lia. rewrite Hzero, Hp. by rewrite decide_True.
Qed.

(** Closing a socket just bound restores the set of bound ports. *)
Lemma sock_close_bind host sp o :
  (host, sp) ∉ bound o →
  sock_close host sp (OS ({[ (host, sp) ]} ∪ bound o) (stdout o) (timers o)) = o.
Proof.
  intros Hfree. destruct o as [b out t]. unfold sock_close. cbn in *.
  f_equal. apply set_eq. intros x.
  rewrite elem_of_difference, elem_of_union, elem_of_singleton.
  split; [intros [[?|?] ?]; done | intros Hx; split; [by right | by intros ->]].
Qed.

Lemma find_free_port_Ok host port o o' p :
  find_free_port host port o = (o', Ok p) →
  o' = o ∧ p ≠ 0 ∧ (port ≠ 0 → p = port)
  ∧ (port = 0 → 0 < p < 65536 ∧ ((host, p) ∉ bound o)
                ∧ ephemeral host (bound o) = Some p).
Proof.
  unfold find_free_port. intros Hfind.
  destruct (decide (port ≠ 0)) as [Hport|Hport].
  - injection Hfind as <- <-. done.
  - destruct (sock_bind host 0 o) as [[sp o1]|e] eqn:Hbind; [|done].
    apply sock_bind_Ok in Hbind as (Hrange & Hfree & _ & Heph & ->).
    injection Hfind as <- <-. rewrite sock_close_bind by done.
    split_and!; [done|lia|done|]. intros _. split_and!; [lia|lia|done|by apply Heph].
Qed.

(** The probe binds only where the server could bind as well. *)
Lemma find_free_port_probe host o o' p :
  find_free_port host 0 o = (o', Ok p) →
  malformed host = None ∧ resolves host = true
  ∧ denied host p = None ∧ in_use host p o = false.
Proof.
  unfold find_free_port. intros Hfind.
  destruct (decide (0 ≠ 0)) as [?|_]; [done|].
  destruct (sock_bind host 0 o) as [[sp o1]|e] eqn:Hbind; [|done].
  injection Hfind as _ <-. by apply sock_bind_Ok_free in Hbind.
Qed.

(** The run once the server socket is bound. *)
Lemma run_server_started host port open_path serving o o1 p sp o2 :
  find_free_port host port o = (o1, Ok p) →
  sock_bind host p o1 = Ok (sp, o2) →
  run_server host port open_path serving o
  = let o3 := schedule_open (base_url host p) open_path
                (print ("Serving " +:+ base_dir +:+ " at " +:+ base_url host p) o2) in
    match serving with
    | Ok _ => (sock_close host sp o3, Ok 0)
    | Raise KeyboardInterrupt =>
        (sock_close host sp (print (LF +:+ "Shutting down…") o3), Ok 0)
    | Raise e => (sock_close host sp o3, Raise e)
    end.
Proof. intros Hfind Hbind. unfold run_server. by rewrite Hfind, Hbind. Qed.

Lemma schedule_open_bound url open_path o :
  bound (schedule_open url open_path o) = bound o.
Proof. unfold schedule_open. by destruct open_path as [[|c s]|]. Qed.

Lemma lstrip_slashes (n : nat) (s : string) :
  lstrip "/" (slashes n +:+ s) = lstrip "/" s.
Proof. induction n as [|n IH]; [done|]. cbn. exact IH. Qed.

(** The timer started for an open path that is not empty. *)
Lemma run_server_opens host port path serving o o1 p sp o2 :
  find_free_port host port o = (o1, Ok p) →
  sock_bind host p o1 = Ok (sp, o2) →
  path ≠ "" →
  timers (run_server host port (Some path) serving o).1
  = timers o ++ [(400, base_url host p +:+ lstrip "/" path)].
Proof.
  intros Hfind Hbind Hpath.
  rewrite (run_server_started _ _ _ _ _ _ _ _ _ Hfind Hbind).
  apply find_free_port_Ok in Hfind as (-> & _).
  apply sock_bind_Ok in Hbind as (_ & _ & _ & _ & ->). cbn zeta.
  unfold schedule_open. destruct path as [|c path]; [done|]. cbn [truthy].
  by destruct serving as [[]|[]].
Qed.

(** With no other process at work, the run among others is the run. *)
Lemma run_server_alone host port open_path serving o :
  run_server_among (λ b, b) host port open_path (λ _, serving) o
  = run_server host port open_path serving o.
Proof.
  unfold run_server_among, run_server.
  destruct (find_free_port host port o) as [[b out t] [p|e]]; [|done].
  cbn [bound stdout timers]. done.
Qed.

End ServerFacts.

Section ServerClaims.
Import Serve.
Local Open Scope Z_scope.
Context `{Platform}.

(** C4 (as amended).  A configured port other than 0 is returned as it is
    and nothing is bound.  For port 0, when [find_free_port] returns a port
    [p], that port is the one the kernel assigned to the probe socket, it is
    greater than 0, and the probe has been released (the sockets bound are
    those bound before).  The bind of the server socket to [p] that
    [run_server] performs next succeeds when nothing else binds sockets
    and, among other processes, provided that no socket bound since the
    release stands in the way: the server socket is then bound to [p] while
    the serve loop runs, and it is closed however the loop ends.  Whenever
    the host resolves and the kernel assigns a port to the probe, the call
    does return it. *)
Theorem port_resolution (host : string) (port : Z) (o : os) :
  (port ≠ 0 → find_free_port host port o = (o, Ok port))
  ∧ (∀ o' p, find_free_port host 0 o = (o', Ok p) →
       ephemeral host (bound o) = Some p
       ∧ 0 < p
       ∧ o' = o
       ∧ (∀ open_path serving,
            ∃ o3,
              bound o3 = {[ (host, p) ]} ∪ bound o
              ∧ run_server host 0 open_path serving o
                = match serving with
                  | Ok _ => (sock_close host p o3, Ok 0)
                  | Raise KeyboardInterrupt =>
                      (sock_close host p (print (LF +:+ "Shutting down…") o3),
                       Ok 0)
                  | Raise e => (sock_close host p o3, Raise e)
                  end)
       ∧ (∀ others open_path serving,
            in_use host p (OS (others (bound o)) (stdout o) (timers o)) = false →
            ∃ o3,
              bound o3 = {[ (host, p) ]} ∪ others (bound o)
              ∧ run_server_among others host 0 open_path serving o
                = match serving o3 with
                  | Ok _ => (sock_close host p o3, Ok 0)
                  | Raise KeyboardInterrupt =>
                      (sock_close host p (print (LF +:+ "Shutting down…") o3),
                       Ok 0)
                  | Raise e => (sock_close host p o3, Raise e)
                  end))
  ∧ (∀ p, malformed host = None → resolves host = true →
       denied host 0 = None → ephemeral host (bound o) = Some p →
       0 < p < 65536 → denied host p = None → in_use host p o = false →
       find_free_port host 0 o = (o, Ok p))
  ∧ (∀ open_path serving,
       run_server_among (λ b, b) host port open_path (λ _, serving) o
       = run_server host port open_path serving o).
Proof.
  split_and!.
  - intros Hport. unfold find_free_port. by rewrite decide_True.
  - intros o' p Hfind. pose proof Hfind as Hok.
    apply find_free_port_Ok in Hok as (-> & _ & _ & Hzero).
    destruct (Hzero eq_refl) as (Hrange & Hfree & Heph).
    destruct (find_free_port_probe _ _ _ _ Hfind) as (Hwf & Hres & Hden & Huse).
    split_and!; [done|lia|done| |].
    + intros open_path serving.
      pose proof (sock_bind_free host p o Hwf Hres Hrange Hden Huse) as Hbind.
      eexists. split; [|by rewrite
        (run_server_started _ _ _ _ _ _ _ _ _ Hfind Hbind)].
      by rewrite schedule_open_bound.
    + intros others open_path serving Hothers.
      eexists. split; [|unfold run_server_among; rewrite Hfind;
                        rewrite sock_bind_free by done; reflexivity].
      by rewrite schedule_open_bound.
  - intros p Hwf Hres Hzero Hp Hrange Hden Hfree. unfold find_free_port.
    destruct (decide (0 ≠ 0)) as [?|_]; [done|].
    rewrite (sock_bind_any host p) by done. apply in_use_free in Hfree.
    by rewrite sock_close_bind.
  - intros open_path serving. apply run_server_alone.
Qed.


(** C9 (as amended).  Once the server socket is bound, [run_server] given a
    non-empty open path starts one timer, for the URL [http://<host>:<port>/]
    followed by the open path without its leading slashes; so adding leading
    slashes to a non-empty open path does not change the URL that is opened.
    Given the empty open path, or none, it starts no timer. *)
Theorem open_url_strips_slashes host port path serving o o1 p sp o2 :
  find_free_port host port o = (o1, Ok p) →
  sock_bind host p o1 = Ok (sp, o2) →
  (path ≠ "" →
   timers (run_server host port (Some path) serving o).1
   = timers o
     ++ [(400, "http://" +:+ host +:+ ":" +:+ pretty p +:+ "/"
               +:+ lstrip "/" path)])
  ∧ (path ≠ "" → ∀ n : nat,
     timers (run_server host port (Some (slashes n +:+ path)) serving o).1
     = timers (run_server host port (Some path) serving o).1)
  ∧ timers (run_server host port (Some "") serving o).1 = timers o
  ∧ timers (run_server host port None serving o).1 = timers o.
Proof.
  intros Hfind Hbind.
  pose proof (λ open_path,
    run_server_started _ _ open_path serving _ _ _ _ _ Hfind Hbind) as Hrun.
  pose proof (λ q, run_server_opens _ _ q serving _ _ _ _ _ Hfind Hbind) as Hurl.
  apply find_free_port_Ok in Hfind as (-> & _).
  apply sock_bind_Ok in Hbind as (_ & _ & _ & _ & ->). cbn zeta in Hrun.
  split_and!.
  - intros Hpath. rewrite Hurl by done. unfold base_url.
    by rewrite !append_assoc.
  - intros Hpath n. rewrite !Hurl, ?lstrip_slashes; [done..|].
    destruct n, path; done.
  - rewrite Hrun. by destruct serving as [[]|[]].
  - rewrite Hrun. by destruct serving as [[]|[]].
Qed.

(** C7.  For every host and port, [serve_solar.main] is [run_server] with
    that host, that port and the open path [Solar-System/index.html], which
    is also what [serve.main] does when [--solar] is given; the launcher
    declares the two arguments [--host] and [--port], as [serve.py] declares
    them, and no other.  Whenever the server starts, the page scheduled for
    opening is [http://<host>:<port>/Solar-System/index.html]. *)
Theorem launcher_forwards (host : string) (port : Z)
    (serving : result unit) (o : os) :
  ServeSolar.main (ServeSolar.Args host port) serving o
  = run_server host port (Some "Solar-System/index.html") serving o
  ∧ (∀ open gr,
       ServeSolar.main (ServeSolar.Args host port) serving o
       = main (Args host port open true gr) serving o)
  ∧ flag <$> ServeSolar.parser = ["--host"; "--port"]
  ∧ ServeSolar.parser = take 2 parser
  ∧ (∀ o1 p sp o2,
       find_free_port host port o = (o1, Ok p) →
       sock_bind host p o1 = Ok (sp, o2) →
       timers (ServeSolar.main (ServeSolar.Args host port) serving o).1
       = timers o
         ++ [(400, "http://" +:+ host +:+ ":" +:+ pretty p
                   +:+ "/Solar-System/index.html")]).
Proof.
  split_and!; [done..|].
  intros o1 p sp o2 Hfind Hbind. unfold ServeSolar.main.
  cbn [ServeSolar.host ServeSolar.port].
  rewrite (run_server_opens _ _ _ _ _ _ _ _ _ Hfind Hbind) by done.
  unfold base_url. by rewrite !append_assoc.
Qed.

End ServerClaims.

(** ** Concrete runs *)

Section BundlerRuns.
Import Concat.

(** C1, the claim as stated fails: a list given by the caller is processed
    with its duplicates.  [a.txt] listed twice is written twice, whereas the
    deduplicated list has one entry and would give one section. *)
Lemma explicit_list_keeps_duplicates :
  dict_list (dict_fromkeys ["a.txt"; "a.txt"]) = ["a.txt"]
  ∧ fs (@bundle plain_host (Some ["a.txt"; "a.txt"]) "out.txt" demo_world).1
      !! "out.txt"
    = Some (File (Some (joined [ HEADER "a.txt"; "hi"; LF +:+ LF;
                                 HEADER "a.txt"; "hi"; LF +:+ LF ])))
  ∧ fs (@bundle plain_host (Some (dict_list (dict_fromkeys ["a.txt"; "a.txt"])))
          "out.txt" demo_world).1 !! "out.txt"
    = Some (File (Some (joined [ HEADER "a.txt"; "hi"; LF +:+ LF ]))).
Proof. vm_compute. done. Qed.

Lemma default_list_deduplicated_witness :
  dict_list (dict_fromkeys ["a"; "b"; "a"; "c"; "b"]) = ["a"; "b"; "c"]
  ∧ NoDup (dict_list (dict_fromkeys ["a"; "b"; "a"; "c"; "b"]))
  ∧ ∃ r, dict_list (dict_fromkeys ["a"; "b"; "a"; "c"; "b"])
         = dict_list (dict_fromkeys ["a"; "b"; "a"]) ++ "c" :: r.
Proof.
  split; [vm_compute; reflexivity|].
  destruct (proj1 (@default_list_deduplicated plain_host)
              ["a"; "b"; "a"; "c"; "b"]) as (Hnodup & _ & _ & Hfirst & _).
  split; [exact Hnodup|].
  apply (Hfirst ["a"; "b"; "a"] "c" ["b"]); [reflexivity|].
  intros Hin. repeat (apply elem_of_cons in Hin as [Hin|Hin]; [discriminate|]).
  by apply elem_of_nil in Hin.
Defined.

(** C2, the claim as stated fails: with [a.txt] listed twice, two sections
    are written and nothing is skipped, while the deduplicated list has
    length 1. *)
Lemma counts_exceed_deduplicated_length :
  (@bundle_body plain_host (Some ["a.txt"; "a.txt"]) "out.txt" demo_world).2
  = None
  ∧ count_ok
      (@bundle_body plain_host (Some ["a.txt"; "a.txt"]) "out.txt" demo_world).1.1
    = 2%nat
  ∧ count_skipped
      (@bundle_body plain_host (Some ["a.txt"; "a.txt"]) "out.txt" demo_world).1.1
    = 0%nat
  ∧ length (dict_list (dict_fromkeys ["a.txt"; "a.txt"])) = 1%nat
  ∧ last (console
            (@bundle plain_host (Some ["a.txt"; "a.txt"]) "out.txt" demo_world).1)
    = Some "✅  wrote 2 section(s) → out.txt ".
Proof. vm_compute. done. Qed.

Lemma counts_add_up_witness :
  ∃ fr w1,
    @bundle_body plain_host (Some ["a.txt"; "B.txt"; "a.txt"]) "out.txt" demo_world
    = (fr, w1, None)
    ∧ (count_ok fr + count_skipped fr)%nat = 3%nat.
Proof.
  set (run := @bundle_body plain_host (Some ["a.txt"; "B.txt"; "a.txt"])
                "out.txt" demo_world).
  assert (run = (run.1.1, run.1.2, None)) as Hrun by (vm_compute; reflexivity).
  exists run.1.1, run.1.2. split; [exact Hrun|].
  exact (proj1 (@counts_add_up plain_host _ _ _ _ _ Hrun)).
Defined.

(** C5, the claim as stated fails: on a POSIX host the backslash is not a
    separator, and the header of the first path of the built-in list is
    written with the backslashes of the path, not with forward slashes. *)
Lemma header_keeps_backslashes :
  fs (@bundle plain_host None "out.txt" posix_world).1 !! "out.txt"
  = Some (File (Some (joined
      [ "# ===== C:\Users\Alif\Documents\GitHub\solar-system\index.html ====="
          +:+ LF;
        "<html>";
        LF +:+ LF ])))
  ∧ forward_slashes "C:\Users\Alif\Documents\GitHub\solar-system\index.html"
    = "C:/Users/Alif/Documents/GitHub/solar-system/index.html"
  ∧ HEADER (@PurePosixPath plain_host
              (@Path plain_host
                 "C:\Users\Alif\Documents\GitHub\solar-system\index.html"))
    ≠ HEADER (forward_slashes
                "C:\Users\Alif\Documents\GitHub\solar-system\index.html").
Proof. vm_compute. split_and!; [done|done|discriminate]. Qed.

Lemma section_headers_witness :
  ∃ secs : list (string * string),
    secs.*1 = ["docs//a.txt"]
    ∧ fs (@bundle plain_host (Some ["docs//a.txt"; "B.txt"]) "out.txt"
            posix_world).1 !! "out.txt"
      = Some (File (Some (joined (concat (
          (λ sec, [ "# ===== " +:+ posix_normal (posix_normal sec.1)
                    +:+ " =====" +:+ LF;
                    sec.2;
                    LF +:+ LF ])
          <$> secs)))))
    ∧ posix_normal (posix_normal "docs//a.txt") = "docs/a.txt".
Proof.
  set (run := @bundle plain_host (Some ["docs//a.txt"; "B.txt"]) "out.txt"
                posix_world).
  assert (run = (run.1, Ok "out.txt")) as Hrun by (vm_compute; reflexivity).
  destruct (@section_headers plain_host _ _ _ _ _ Hrun)
    as ((secs & Hsecs & Hout & _) & Hposix & _).
  exists secs. split; [exact Hsecs|]. split; [exact Hout|].
  transitivity (posix_normal "docs//a.txt");
    [exact (Hposix "docs//a.txt") | vm_compute; reflexivity].
Defined.



End BundlerRuns.

Section ServerRuns.
Import Serve.
Local Open Scope Z_scope.



(** C4, the claim as stated fails: the probe is released before the server
    binds, so the port is not reserved.  When another process binds the port
    in between, the bind of the server raises. *)
Lemma port_taken_after_probe :
  @find_free_port demo_platform "127.0.0.1" 0 idle = (idle, Ok 49152)
  ∧ @run_server_among demo_platform (grab ("127.0.0.1", 49152))
      "127.0.0.1" 0 None (λ _, Ok ()) idle
    = (OS {[ ("127.0.0.1", 49152) ]} [] [],
       Raise (OSError "Address already in use")).
Proof. vm_compute. done. Qed.

Lemma port_resolution_witness :
  @find_free_port demo_platform "127.0.0.1" 8000 idle = (idle, Ok 8000)
  ∧ @find_free_port demo_platform "127.0.0.1" 0 idle = (idle, Ok 49152)
  ∧ ∃ o3, bound o3 = {[ ("127.0.0.1", 49152) ]} ∪ ∅
          ∧ @run_server demo_platform "127.0.0.1" 0 None (Ok ()) idle
            = (@sock_close "127.0.0.1" 49152 o3, Ok 0).
Proof.
  destruct (@port_resolution demo_platform "127.0.0.1" 8000 idle)
    as (Hfixed & _ & _).
  destruct (@port_resolution demo_platform "127.0.0.1" 0 idle)
    as (_ & Hany & Hfree & _).
  assert (@find_free_port demo_platform "127.0.0.1" 0 idle = (idle, Ok 49152))
    as Hfind.
  { apply Hfree; [reflexivity|reflexivity|reflexivity|vm_compute; reflexivity
                 |lia|reflexivity|vm_compute; reflexivity]. }
  split; [apply Hfixed; lia|]. split; [exact Hfind|].
  destruct (Hany _ _ Hfind) as (_ & _ & _ & Hrun & _).
  exact (Hrun None (Ok ())).
Defined.


Lemma launcher_forwards_witness :
  timers (@ServeSolar.main demo_platform (ServeSolar.Args "127.0.0.1" 0)
            (Raise KeyboardInterrupt) idle).1
  = [(400, "http://127.0.0.1:49152/Solar-System/index.html")].
Proof.
  destruct (@launcher_forwards demo_platform "127.0.0.1" 0
              (Raise KeyboardInterrupt) idle) as (_ & _ & _ & _ & Hopen).
  apply (Hopen idle 49152 49152 (OS {[ ("127.0.0.1", 49152) ]} [] []));
    vm_compute; reflexivity.
Defined.

(** C9, the claim as stated fails: the empty open path and the open path
    ["/"] differ only in leading slashes; for the first no URL is opened, for
    the second the base URL is. *)
Lemma empty_open_path_opens_nothing :
  lstrip "/" "" = lstrip "/" "/"
  ∧ timers (@run_server demo_platform "127.0.0.1" 8000 (Some "") (Ok ()) idle).1
    = []
  ∧ timers (@run_server demo_platform "127.0.0.1" 8000 (Some "/") (Ok ()) idle).1
    = [(400, "http://127.0.0.1:8000/")].
Proof. vm_compute. done. Qed.

Lemma open_url_strips_slashes_witness :
  timers (@run_server demo_platform "127.0.0.1" 8000
            (Some "//Solar-System/index.html") (Ok ()) idle).1
  = [(400, "http://127.0.0.1:8000/Solar-System/index.html")].
Proof.
  refine (proj1 (@open_url_strips_slashes demo_platform "127.0.0.1" 8000
                   "//Solar-System/index.html" (Ok ()) idle idle 8000 8000
                   (OS {[ ("127.0.0.1", 8000) ]} [] []) _ _) _).
  - reflexivity.
  - vm_compute. reflexivity.
  - discriminate.
Defined.

End ServerRuns.

(** * Further properties *)

(** ** The bundler *)


Lemma append_length (a b : string) :
  String.length (a +:+ b) = (String.length a + String.length b)%nat.
Proof.
  induction a as [|x a IH]; [done|].
  change (S (String.length (a +:+ b)) = S (String.length a + String.length b)).
  by rewrite IH.
Qed.

Lemma append_cancel_r (a b c : string) : a +:+ c = b +:+ c → a = b.
Proof.
  revert b. induction a as [|x a IH]; intros [|y b] Heq.
  - done.
  - apply (f_equal String.length) in Heq.
    change (String.length c = S (String.length (b +:+ c))) in Heq.
    rewrite append_length in Heq. lia.
  - apply (f_equal String.length) in Heq.
    change (S (String.length (a +:+ c)) = String.length c) in Heq.
    rewrite append_length in Heq. lia.
  - change (String x (a +:+ c) = String y (b +:+ c)) in Heq.
    injection Heq as -> Heq. f_equal. by apply IH.
Qed.

Section DedupMore.
Import Concat.

Lemma fromkeys_length (l : list string) :
  (length (dict_list (dict_fromkeys l)) <= length l)%nat
  ∧ (length (dict_list (dict_fromkeys l)) = length l → NoDup l).
Proof.
  induction l as [|y l [IHle IHeq]] using rev_ind; [split; [done|constructor]|].
  rewrite fromkeys_snoc, !length_app. cbn [length].
  destruct (decide (y ∈ dict_list (dict_fromkeys l))) as [Hin|Hout];
    cbn [length].
  - split; [lia|]. intros Heq. lia.
  - split; [lia|]. intros Heq. apply NoDup_app. split_and!.
    + apply IHeq. lia.
    + intros x Hx Hy. apply list_elem_of_singleton in Hy as ->.
      apply Hout. by apply fromkeys_elem.
    + apply NoDup_singleton.
Qed.

(** X1.  Deduplicating a list that has been deduplicated changes nothing;
    the deduplicated list is never longer than the list, and it has the same
    length exactly when the list has no duplicates. *)
Theorem dedup_idempotent (l : list string) :
  dict_list (dict_fromkeys (dict_list (dict_fromkeys l)))
  = dict_list (dict_fromkeys l)
  ∧ (length (dict_list (dict_fromkeys l)) <= length l)%nat
  ∧ (length (dict_list (dict_fromkeys l)) = length l ↔ NoDup l).
Proof.
  split_and!.
  - apply fromkeys_NoDup_id, fromkeys_NoDup.
  - apply fromkeys_length.
  - split; [apply fromkeys_length|]. intros Hl. by rewrite fromkeys_NoDup_id.
Qed.

(** X2.  The header line determines the rendered path: two paths with the
    same header line are the same path. *)
Theorem HEADER_inj (p q : string) : HEADER p = HEADER q ↔ p = q.
Proof.
  split; [|by intros ->]. unfold HEADER. intros Heq.
  apply (inj (String.append "# ===== ")) in Heq.
  by apply append_cancel_r in Heq.
Qed.

End DedupMore.

Section BundleMore.
Import Concat.
Context `{Host}.










End BundleMore.

Section BundleExtras.
Import Concat.
Context `{Host}.

(** X3.  Whatever the list, the output path and the outcome, [bundle]
    changes no file other than the output file, and only adds lines to the
    console. *)
Theorem bundle_touches_only_output files output w :
  (∀ p, p ≠ Path output → fs (bundle files output w).1 !! p = fs w !! p)
  ∧ ∃ lines, console (bundle files output w).1 = console w ++ lines.
Proof.
  unfold bundle, bundle_body.
  destruct (open_w (Path output) w) as [w0 [[]|e0]] eqn:Hopen.
  - apply open_w_Ok in Hopen as (_ & _ & ->).
    destruct (for_files _ _ _ _) as [[fr wL] e] eqn:Hloop.
    pose proof Hloop as Hfs. apply for_files_fs in Hfs as [X Hfs];
      [|apply opened_insert].
    apply for_files_prints in Hloop as [lines Hlines]; [|apply opened_insert].
    assert (∀ p, p ≠ Path output →
              fs (close (Path output) fr wL) !! p = fs w !! p) as Hother.
    { intros p Hp. unfold close. cbn [fs].
      by rewrite Hfs, !lookup_insert_ne. }
    destruct e as [e|]; cbn [fst]; (split; [exact Hother|]).
    + exists lines. exact Hlines.
    + eexists. unfold print, close. cbn [console].
      by rewrite Hlines, <- app_assoc.
  - cbn [fst].
    destruct (open_w_Raise _ _ _ _ Hopen) as [->|(_ & _ & _ & ->)].
    + split; [done|]. exists []. by rewrite app_nil_r.
    + split; [|exists []; cbn [console]; by rewrite app_nil_r].
      intros p Hp. cbn [fs]. by rewrite lookup_insert_ne.
Qed.






End BundleExtras.

(** ** The development server *)

Section ServerMore.
Import Serve.
Local Open Scope Z_scope.
Context `{Platform}.

Lemma lstrip_slash_cons (c : ascii) (s : string) :
  lstrip "/" (String c s)
  = if decide (c = "/"%char) then lstrip "/" s else String c s.
Proof.
  cbn [lstrip]. unfold mem_char. cbn [String.list_ascii_of_string].
  destruct (decide (c = "/"%char)) as [->|Hc].
  - rewrite bool_decide_eq_true_2; [done|apply list_elem_of_here].
  - rewrite bool_decide_eq_false_2; [done|].
    intros Hin. apply list_elem_of_singleton in Hin. done.
Qed.

(** A string is some slashes followed by what [lstrip] leaves, and that
    does not begin with a slash. *)
Lemma lstrip_split (s : string) :
  (∃ n, s = slashes n +:+ lstrip "/" s)
  ∧ ∀ r, lstrip "/" s ≠ String "/" r.
Proof.
  induction s as [|c s [[n IHn] IHr]]; [split; [by exists 0%nat|done]|].
  rewrite lstrip_slash_cons. destruct (decide (c = "/"%char)) as [->|Hc].
  - split; [|done]. exists (S n).
    change (String "/" s = String "/" (slashes n +:+ lstrip "/" s)).
    by rewrite <- IHn.
  - split; [by exists 0%nat|]. intros r [= ? _]. done.
Qed.

Lemma find_free_port_state host port o :
  (find_free_port host port o).1 = o.
Proof.
  unfold find_free_port. destruct (decide (port ≠ 0)); [done|].
  destruct (sock_bind host 0 o) as [[p o1]|e] eqn:Hbind; [|done].
  apply sock_bind_Ok in Hbind as (_ & Hfree & _ & _ & ->). cbn [fst].
  by apply sock_close_bind.
Qed.


Lemma run_server_None_empty host port serving o :
  run_server host port (Some "") serving o = run_server host port None serving o.
Proof. done. Qed.

End ServerMore.

Section ServerExtras.
Import Serve.
Local Open Scope Z_scope.
Context `{Platform}.

(** X9.  For a request in HTTP/0.9, which has no header section,
    [DevHandler.end_headers] sends nothing and leaves the handler as it
    is. *)
Theorem end_headers_http09 (h : handler) :
  request_version h = "HTTP/0.9" → DevHandler.end_headers h = h.
Proof.
  intros Hv. destruct h as [v buf out cl]. cbn in Hv. subst v.
  reflexivity.
Qed.

(** X10.  [find_free_port] leaves no socket bound, whether it returns or
    raises; it never returns 0; and it can raise only when asked for port
    0. *)
Theorem find_free_port_releases host port o :
  (find_free_port host port o).1 = o
  ∧ (∀ p, (find_free_port host port o).2 = Ok p →
       p ≠ 0 ∧ (port ≠ 0 → p = port)
       ∧ (port = 0 → 0 < p < 65536 ∧ ((host, p) ∉ bound o)))
  ∧ (∀ e, (find_free_port host port o).2 = Raise e → port = 0).
Proof.
  split_and!.
  - apply find_free_port_state.
  - intros p Hp.
    destruct (find_free_port host port o) as [o' r] eqn:Hfind. cbn in Hp.
    subst r. apply find_free_port_Ok in Hfind as (_ & Hp0 & Hport & Hzero).
    split_and!; [done|done|]. intros Hz. by destruct (Hzero Hz) as (? & ? & _).
  - intros e. unfold find_free_port.
    destruct (decide (port ≠ 0)); [done|]. intros _. lia.
Qed.




(** X14.  For a non-empty open path, the URL that is opened is the base URL
    followed by the open path without its leading slashes, and that
    remainder does not begin with a slash: the URL has one slash between the
    port and the path.  An open path made of slashes only opens the base
    URL. *)
Theorem open_url_single_slash host port path serving o o1 p sp o2 :
  find_free_port host port o = (o1, Ok p) →
  sock_bind host p o1 = Ok (sp, o2) →
  path ≠ "" →
  ∃ (n : nat) (rest : string),
    path = slashes n +:+ rest
    ∧ (∀ r, rest ≠ String "/" r)
    ∧ timers (run_server host port (Some path) serving o).1
      = timers o ++ [(400, base_url host p +:+ rest)]
    ∧ (path = slashes n → rest = "").
Proof.
  intros Hfind Hbind Hpath.
  destruct (lstrip_split path) as [[n Hn] Hrest].
  exists n, (lstrip "/" path). split_and!; [done|done| |].
  - by apply (run_server_opens _ _ _ _ _ _ _ _ _ Hfind Hbind).
  - intros Hall. rewrite Hall in Hn at 1.
    apply (f_equal String.length) in Hn. rewrite append_length in Hn.
    destruct (lstrip "/" path); [done|]. cbn [String.length] in Hn. lia.
Qed.

(** X15.  [main] opens the Solar System page when [--solar] is given,
    whatever [--gr] and [--open] are; otherwise the relativity page when
    [--gr] is given, whatever [--open] is; otherwise it behaves as
    [run_server] given the value of [--open], an empty value opening
    nothing. *)
Theorem main_open_precedence (args : Namespace) serving o :
  (solar args = true →
   main args serving o
   = run_server (host args) (port args) (Some "Solar-System/index.html")
       serving o)
  ∧ (solar args = false → gr args = true →
     main args serving o
     = run_server (host args) (port args) (Some "general-relativity.html")
         serving o)
  ∧ (solar args = false → gr args = false →
     main args serving o
     = run_server (host args) (port args) (open args) serving o)
  ∧ (solar args = false → gr args = false → open args = Some "" →
     main args serving o = run_server (host args) (port args) None serving o).
Proof.
  unfold main. split_and!.
  - by intros ->.
  - by intros -> ->.
  - intros -> ->. destruct (open args) as [[|c s]|]; [|done..].
    cbn [truthy]. symmetry. apply run_server_None_empty.
  - by intros -> -> ->.
Qed.

End ServerExtras.

(** ** Concrete runs for the further properties *)

Section MoreRuns.
Import Concat.
Local Open Scope Z_scope.










End MoreRuns.

Section MoreServerRuns.
Import Serve.
Local Open Scope Z_scope.

Lemma end_headers_http09_witness :
  DevHandler.end_headers (Handler "HTTP/0.9" [] "" true)
  = Handler "HTTP/0.9" [] "" true.
Proof. apply (end_headers_http09 (Handler "HTTP/0.9" [] "" true)). reflexivity. Defined.



Lemma open_url_single_slash_witness :
  timers (@run_server demo_platform "127.0.0.1" 8000 (Some "/a") (Ok ()) idle).1
  = [(400, "http://127.0.0.1:8000/a")].
Proof.
  destruct (@open_url_single_slash demo_platform "127.0.0.1" 8000 "/a" (Ok ())
              idle idle 8000 8000 (OS {[ ("127.0.0.1", 8000) ]} [] []))
    as (n & rest & Hn & Hrest & Hopen & _).
  - reflexivity.
  - vm_compute. reflexivity.
  - discriminate.
  - rewrite Hopen. destruct n as [|[|n]].
    + vm_compute in Hn. subst rest. by destruct (Hrest "a").
    + vm_compute in Hn. injection Hn as <-. vm_compute. reflexivity.
    + vm_compute in Hn. discriminate Hn.
Defined.

End MoreServerRuns.
